(** * Tic Tac Toe: the game engine of [src/tictactoe.ts] and [tictactoe.js]

    A shallow embedding of the [TicTacToe] class (the model of the game) and
    of the part of the JavaScript runtime it relies on: array indexing that
    yields [undefined] or raises a [TypeError], object properties keyed by
    strings, and the callbacks handed to [setTimeout].  The [Display] object
    is an interface of the class; the calls made on it are recorded in a log.
    Coordinates are integers, as the display sends them.

    Two variants of [clickCell] live in the repository.  The TypeScript one
    evaluates the end of the round inside the branch that marks the cell; the
    older JavaScript one evaluates it after that branch, on every click.  All
    the other methods are the same in both. *)

From Stdlib Require Import ZArith Lia Bool.
From stdpp Require Import base option list strings gmap pretty.

Open Scope Z_scope.
Open Scope string_scope.

(** ** JavaScript values used by the class *)

(** A [number] holding a score: an integer, or [NaN] (what [undefined + 1]
    evaluates to).  Integer arithmetic on numbers is exact below 2^53, the
    range in which the scores of a session stay. *)
Inductive number : Type :=
  | Num (n : Z)
  | NaN.

#[global] Instance number_eq_dec : EqDecision number.
Proof. solve_decision. Defined.

(** [v + 1], where [v] is the value of a property that may be absent. *)
Definition plus_one (v : option number) : number :=
  match v with
  | Some (Num n) => Num (n + 1)
  | Some NaN => NaN
  | None => NaN
  end.

(** [a[i]] on an array: [undefined] (here [None]) outside the array. *)
Definition index {A : Type} (a : list A) (i : Z) : option A :=
  if decide (0 <= i) then a !! Z.to_nat i else None.

(** The empty string [''], the value of a cell that holds no mark. *)
Abbreviation blank := EmptyString.

(** [v === s] where [v] may be [undefined]. *)
Definition strict_eq (v : option string) (s : string) : bool :=
  match v with
  | Some t => String.eqb t s
  | None => false
  end.

Inductive error : Type :=
  | TypeError.

Inductive result (A : Type) : Type :=
  | Return (a : A)
  | Throw (e : error).
Arguments Return {A} a.
Arguments Throw {A} e.

(** ** The state of the game *)

(** The methods of the [Display] interface that the model calls. *)
Inductive DisplayCall : Type :=
  | bindHandler
  | printGameBoard (boardData : list (list string))
  | updateBoard (row col : Z) (currentPlayer : string)
  | clearGameBoard
  | printScoreBoard (scoreData : gmap string number)
  | updateScore (currentScore : gmap string number) (currentPlayer : string)
  | printMessage (winner : option string)
  | clearMessage.

(** The fields of a [TicTacToe] object.  [players] and [wait] are constants
    set by the constructor and never assigned again; [display] is the log of
    the calls made on the display, oldest first; [timers] holds the delay of
    every callback scheduled with [setTimeout] that has not run yet. *)
Record TicTacToe : Type := mkTicTacToe {
  board : list (list string);
  waiting : bool;
  score : gmap string number;
  currentPlayer : string;
  display : list DisplayCall;
  timers : list Z
}.

Module players.
Definition x : string := "x".
Definition o : string := "o".
End players.

Definition wait : Z := 1500.

Definition set_board (b : list (list string)) (s : TicTacToe) : TicTacToe :=
  mkTicTacToe b (waiting s) (score s) (currentPlayer s) (display s) (timers s).
Definition set_waiting (w : bool) (s : TicTacToe) : TicTacToe :=
  mkTicTacToe (board s) w (score s) (currentPlayer s) (display s) (timers s).
Definition set_score (sc : gmap string number) (s : TicTacToe) : TicTacToe :=
  mkTicTacToe (board s) (waiting s) sc (currentPlayer s) (display s) (timers s).
Definition set_currentPlayer (p : string) (s : TicTacToe) : TicTacToe :=
  mkTicTacToe (board s) (waiting s) (score s) p (display s) (timers s).
Definition set_display (d : list DisplayCall) (s : TicTacToe) : TicTacToe :=
  mkTicTacToe (board s) (waiting s) (score s) (currentPlayer s) d (timers s).
Definition set_timers (t : list Z) (s : TicTacToe) : TicTacToe :=
  mkTicTacToe (board s) (waiting s) (score s) (currentPlayer s) (display s) t.

(** ** Methods as state transformers that may throw *)

(** A method body: from the object before the call to a result and the
    object after it.  An exception keeps the assignments made before it. *)
Definition M (A : Type) : Type := TicTacToe -> result A * TicTacToe.

#[global] Instance M_ret : MRet M := fun A a s => (Return a, s).
#[global] Instance M_bind : MBind M := fun A B f m s =>
  match m s with
  | (Return a, s') => f a s'
  | (Throw e, s') => (Throw e, s')
  end.

Definition throw {A : Type} (e : error) : M A := fun s => (Throw e, s).
Definition gets {A : Type} (f : TicTacToe -> A) : M A := fun s => (Return (f s), s).
Definition modify (f : TicTacToe -> TicTacToe) : M unit := fun s => (Return tt, f s).

(** The object left by running a method, whether it returned or threw. *)
Definition exec {A : Type} (m : M A) (s : TicTacToe) : TicTacToe := snd (m s).

(** [this.board[row][col]]: a [TypeError] when [this.board[row]] is
    [undefined], otherwise the cell or [undefined]. *)
Definition read (row col : Z) : M (option string) :=
  b ← gets board;
  match index b row with
  | None => throw TypeError
  | Some r => mret (index r col)
  end.

(** [a[i] = v] on an array, for [i] inside the array. *)
Definition assign {A : Type} (a : list A) (i : Z) (v : A) : list A :=
  if decide (0 <= i < Z.of_nat (length a)) then <[Z.to_nat i := v]> a else a.

(** [this.board[row][col] = v].  The assignment mutates the row in place.
    JavaScript would grow the row when [col] is past its end; [clickCell]
    assigns only to a cell it has just read as [''], so that case does not
    arise (lemma [read_empty_in_range]) and is left as the identity here. *)
Definition write (row col : Z) (v : string) : M unit :=
  b ← gets board;
  match index b row with
  | None => throw TypeError
  | Some r => modify (set_board (assign b row (assign r col v)))
  end.

(** [this.display.m(...)].  The display is the [Display] interface of the
    class: here a call is recorded and returns.  What [DOMDisplay] does with
    the calls, and where one of its methods raises, is [replay] below; the
    two agree on every state whose page shows it ([screen_shows]), which the
    statements that assert the outcome of a call take as a hypothesis and
    which holds in every state of a session. *)
Definition call (c : DisplayCall) : M unit :=
  modify (fun s => set_display (display s ++ [c]) s).

(** [a && b] and [a || b], evaluating [b] only when needed. *)
Definition andM (a b : M bool) : M bool :=
  v ← a; if (v : bool) then b else mret false.
Definition orM (a b : M bool) : M bool :=
  v ← a; if (v : bool) then mret true else b.

(** [this.board[row][col] === this.currentPlayer]. *)
Definition cell_is_current (row col : Z) : M bool :=
  v ← read row col;
  p ← gets currentPlayer;
  mret (strict_eq v p).

(** [createBoard]. *)
Definition createBoard : list (list string) :=
  [[blank; blank; blank]; [blank; blank; blank]; [blank; blank; blank]].

(** [isGameWon]: [(row) || (column) || ((diagonal) || (diagonal))], the
    operands evaluated from left to right until one is true. *)
Definition isGameWon (row col : Z) : M bool :=
  won ← orM
    (orM
       (* Horizontal win *)
       (andM (andM (cell_is_current row 0) (cell_is_current row 1))
          (cell_is_current row 2))
       (* Vertical win *)
       (andM (andM (cell_is_current 0 col) (cell_is_current 1 col))
          (cell_is_current 2 col)))
    (* Diagonal win *)
    (orM
       (andM (andM (cell_is_current 0 0) (cell_is_current 1 1))
          (cell_is_current 2 2))
       (andM (andM (cell_is_current 2 0) (cell_is_current 1 1))
          (cell_is_current 0 2)));
  if (won : bool) then mret true else mret false.

(** [switchPlayer]. *)
Definition switchPlayer : M unit :=
  modify (fun s =>
    set_currentPlayer
      (if String.eqb (currentPlayer s) players.x then players.o else players.x) s).

(** [increaseScore]: [this.score[this.currentPlayer] += 1]. *)
Definition increaseScore : M unit :=
  modify (fun s =>
    set_score (<[currentPlayer s := plus_one (score s !! currentPlayer s)]> (score s)) s).

(** [resetBoard]. *)
Definition resetBoard : M unit :=
  call clearMessage;;
  call clearGameBoard;;
  modify (set_board createBoard).

(** The arrow function that [gameOver] hands to [setTimeout]. *)
Definition resetCallback : M unit :=
  resetBoard;;
  modify (set_waiting false).

(** [setTimeout(resetCallback, delay)]: the only callback ever scheduled. *)
Definition setTimeout (delay : Z) : M unit :=
  modify (fun s => set_timers (timers s ++ [delay]) s).

(** [gameOver]. *)
Definition gameOver (winner : option string) : M unit :=
  modify (set_waiting true);;
  call (printMessage winner);;
  setTimeout wait.

(** The [stalemate] array of [clickCell]: the rows that still have an empty
    cell, each reduced to its empty cells. *)
Definition stalemate_rows (b : list (list string)) : list (list string) :=
  List.filter (fun row => (0 <? length row)%nat)
    (List.map (List.filter (fun col => String.eqb col blank)) b).

(** The end of [clickCell], common to both variants. *)
Definition settle (win : bool) (stalemate : list (list string)) : M unit :=
  w ← gets waiting;
  if negb w then
    if win then
      increaseScore;;
      sc ← gets score;
      p ← gets currentPlayer;
      call (updateScore sc p);;
      gameOver (Some p)
    else if (length stalemate <? 1)%nat then
      gameOver None
    else
      switchPlayer
  else mret tt.

(** [clickCell] of the TypeScript source. *)
Definition clickCell (row col : Z) : M unit :=
  v ← read row col;
  let canContinue := strict_eq v blank in
  w ← gets waiting;
  if canContinue && negb w then
    p ← gets currentPlayer;
    write row col p;;
    call (updateBoard row col p);;
    win ← isGameWon row col;
    stalemate ← gets (fun s => stalemate_rows (board s));
    settle win stalemate
  else mret tt.

Module JavaScript.

(** [clickCell] of [tictactoe.js]: the win and stalemate tests run after
    the guarded assignment, whether or not the cell was marked. *)
Definition clickCell (row col : Z) : M unit :=
  v ← read row col;
  let canContinue := strict_eq v blank in
  w ← gets waiting;
  (if canContinue && negb w then
     p ← gets currentPlayer;
     write row col p;;
     call (updateBoard row col p)
   else mret tt);;
  win ← isGameWon row col;
  stalemate ← gets (fun s => stalemate_rows (board s));
  settle win stalemate.

End JavaScript.

(** The constructor. *)
Definition new_TicTacToe : TicTacToe :=
  {| board := createBoard;
     waiting := false;
     score := {[ "x" := Num 0; "o" := Num 0 ]};
     currentPlayer := players.x;
     display := [bindHandler];
     timers := [] |}.

(** [startGame]. *)
Definition startGame : M unit :=
  sc ← gets score;
  call (printScoreBoard sc);;
  b ← gets board;
  call (printGameBoard b).

(** ** The event loop *)

(** What re-enters the model: a click forwarded by the display, or the timer
    running the oldest scheduled callback. *)
Inductive event : Type :=
  | Click (row col : Z)
  | Timeout.

(** Run the oldest scheduled callback, if there is one. *)
Definition fire (s : TicTacToe) : TicTacToe :=
  match timers s with
  | [] => s
  | _ :: rest => exec resetCallback (set_timers rest s)
  end.

(** One turn of the event loop, for the click handler [click] bound by the
    constructor.  An exception escaping a handler ends the handler and leaves
    the object as it is. *)
Definition step_with (click : Z -> Z -> M unit) (s : TicTacToe) (e : event)
  : TicTacToe :=
  match e with
  | Click row col => exec (click row col) s
  | Timeout => fire s
  end.

Definition run_with (click : Z -> Z -> M unit) (es : list event) (s : TicTacToe)
  : TicTacToe :=
  fold_left (step_with click) es s.

Definition step : TicTacToe -> event -> TicTacToe := step_with clickCell.
Definition run : list event -> TicTacToe -> TicTacToe := run_with clickCell.

Definition initial : TicTacToe := exec startGame new_TicTacToe.

(** ** The vocabulary of the specification *)

(** The cell at ([row], [col]), when the board has one there. *)
Definition cell (b : list (list string)) (row col : Z) : option string :=
  r ← index b row; index r col.

(** The board with ([row], [col]) set to [v]. *)
Definition mark (b : list (list string)) (row col : Z) (v : string)
  : list (list string) :=
  match index b row with
  | Some r => assign b row (assign r col v)
  | None => b
  end.

(** A board of three rows of three cells. *)
Definition board_3x3 (b : list (list string)) : Prop :=
  length b = 3%nat /\ Forall (fun r => length r = 3%nat) b.

(** The eight lines: three rows, three columns, two diagonals. *)
Definition lines : list (list (Z * Z)) :=
  [ [(0, 0); (0, 1); (0, 2)];
    [(1, 0); (1, 1); (1, 2)];
    [(2, 0); (2, 1); (2, 2)];
    [(0, 0); (1, 0); (2, 0)];
    [(0, 1); (1, 1); (2, 1)];
    [(0, 2); (1, 2); (2, 2)];
    [(0, 0); (1, 1); (2, 2)];
    [(2, 0); (1, 1); (0, 2)] ].

(** Every cell of the line [l] holds the mark [p]. *)
Definition line_of (b : list (list string)) (p : string) (l : list (Z * Z)) : bool :=
  forallb (fun ij => strict_eq (cell b (fst ij) (snd ij)) p) l.

(** At least one of the eight lines consists entirely of [p]'s marks. *)
Definition has_line (b : list (list string)) (p : string) : bool :=
  existsb (line_of b p) lines.

(** The line [l] passes through ([row], [col]). *)
Definition through (row col : Z) (l : list (Z * Z)) : bool :=
  existsb (fun ij => Z.eqb (fst ij) row && Z.eqb (snd ij) col) l.

(** A line through ([row], [col]) consists entirely of [p]'s marks: the mark
    placed at ([row], [col]) completed a line. *)
Definition completes_line (b : list (list string)) (p : string) (row col : Z) : bool :=
  existsb (fun l => through row col l && line_of b p l) lines.

(** No cell of the board is empty. *)
Definition no_empty (b : list (list string)) : bool :=
  forallb (forallb (fun c => negb (String.eqb c blank))) b.

(** The number of cells that hold the mark [p]. *)
Definition tally {A : Type} (f : A -> nat) (l : list A) : nat :=
  foldr (fun a n => (f a + n)%nat) 0%nat l.
Definition count_marks (b : list (list string)) (p : string) : nat :=
  tally (tally (fun c => if String.eqb c p then 1%nat else 0%nat)) b.

(** The other player. *)
Definition opponent (p : string) : string :=
  if String.eqb p players.x then players.o else players.x.

(** The value [isGameWon] computes on a 3x3 board (lemma [isGameWon_run]). *)
Definition holds (b : list (list string)) (p : string) (row col : Z) : bool :=
  strict_eq (cell b row col) p.
Definition isGameWon_value (b : list (list string)) (p : string) (row col : Z) : bool :=
  ((holds b p row 0 && holds b p row 1 && holds b p row 2)
   || (holds b p 0 col && holds b p 1 col && holds b p 2 col))
  || ((holds b p 0 0 && holds b p 1 1 && holds b p 2 2)
      || (holds b p 2 0 && holds b p 1 1 && holds b p 0 2)).

(** ** The outcomes of a click *)

(** The object once the current player has marked ([row], [col]). *)
Definition marked (row col : Z) (s : TicTacToe) : TicTacToe :=
  set_display (display s ++ [updateBoard row col (currentPlayer s)])
    (set_board (mark (board s) row col (currentPlayer s)) s).

(** The object after [gameOver winner]: awaiting the reset, the message
    shown, the reset scheduled. *)
Definition ended (winner : option string) (s : TicTacToe) : TicTacToe :=
  {| board := board s;
     waiting := true;
     score := score s;
     currentPlayer := currentPlayer s;
     display := display s ++ [printMessage winner];
     timers := timers s ++ [wait] |}.

(** The round is won by the current player. *)
Definition won (s : TicTacToe) : TicTacToe :=
  let p := currentPlayer s in
  let sc := <[p := plus_one (score s !! p)]> (score s) in
  ended (Some p) (set_display (display s ++ [updateScore sc p]) (set_score sc s)).

(** The round is a draw. *)
Definition drawn (s : TicTacToe) : TicTacToe := ended None s.

(** The round continues with the other player. *)
Definition switched (s : TicTacToe) : TicTacToe :=
  set_currentPlayer (opponent (currentPlayer s)) s.

(** The object after the deferred reset has run. *)
Definition cleared (s : TicTacToe) : TicTacToe :=
  {| board := createBoard;
     waiting := false;
     score := score s;
     currentPlayer := currentPlayer s;
     display := display s ++ [clearMessage; clearGameBoard];
     timers := timers s |}.

(** ** Rounds and reachable states *)

(** A sequence of events with no firing of the deferred reset: what happens
    within a single round. *)
Definition within_round (es : list event) : Prop :=
  Forall (fun e => e <> Timeout) es.

(** What every state of a session satisfies (lemma [invariant_run]): the
    board is 3x3; the current player is x or o; the marks of the two players
    differ by at most one, and in an active round the player to move has no
    more marks than the opponent; in an active round neither player has a
    line; the score holds a count for each player. *)
Record invariant (s : TicTacToe) : Prop := {
  inv_board : board_3x3 (board s);
  inv_player : currentPlayer s = players.x \/ currentPlayer s = players.o;
  inv_turn :
    let c := count_marks (board s) (currentPlayer s) in
    let d := count_marks (board s) (opponent (currentPlayer s)) in
    (c <= d + 1 /\ d <= c + 1)%nat /\ (waiting s = false -> (c <= d)%nat);
  inv_lines :
    waiting s = false ->
    has_line (board s) players.x = false /\ has_line (board s) players.o = false;
  inv_score :
    exists n m, score s !! players.x = Some (Num n) /\
                score s !! players.o = Some (Num m) /\ 0 <= n /\ 0 <= m
}.

(** ** Sample games *)

(** Four moves into a round: x holds (0,0) and (0,1), o holds (1,1) and
    (2,2), and x is to move. *)
Definition x_to_win : TicTacToe :=
  run [Click 0 0; Click 1 1; Click 0 1; Click 2 2] initial.

(** Eight moves that complete no line and leave (2,2) empty, x to move:
    x o x / x o o / o x _ . *)
Definition x_to_draw : TicTacToe :=
  run [Click 0 0; Click 0 1; Click 0 2; Click 1 1;
       Click 1 0; Click 1 2; Click 2 1; Click 2 0] initial.

(** A round just won by x, the reset still pending. *)
Definition x_has_won : TicTacToe := run [Click 0 2] x_to_win.

(** ** Sessions *)

(** The calls that announce a win of [p]. *)
Definition is_win_message (p : string) (c : DisplayCall) : bool :=
  match c with
  | printMessage (Some w) => String.eqb w p
  | _ => false
  end.

(** The number of wins of [p] announced on the display so far. *)
Definition wins_announced (p : string) (log : list DisplayCall) : nat :=
  tally (fun c => if is_win_message p c then 1%nat else 0%nat) log.

(** A value that a cell may hold. *)
Definition cell_value (c : string) : Prop :=
  c = blank \/ c = players.x \/ c = players.o.

(** What every state of a session satisfies beyond [invariant] (lemma
    [session_invariant_run]): cells hold [''], x or o; a reset is scheduled
    exactly while the model awaits it; an active round has an empty cell; a
    finished round was announced as what the board shows; each score is the
    number of wins announced for that player. *)
Record session_invariant (s : TicTacToe) : Prop := {
  ses_invariant : invariant s;
  ses_cells : Forall (Forall cell_value) (board s);
  ses_timers : timers s = if waiting s then [wait] else [];
  ses_open : waiting s = false -> no_empty (board s) = false;
  ses_outcome :
    waiting s = true ->
    (last (display s) = Some (printMessage (Some (currentPlayer s))) /\
     has_line (board s) (currentPlayer s) = true /\
     has_line (board s) (opponent (currentPlayer s)) = false)
    \/ (last (display s) = Some (printMessage None) /\
        no_empty (board s) = true /\
        has_line (board s) players.x = false /\
        has_line (board s) players.o = false);
  ses_score :
    score s !! players.x
      = Some (Num (Z.of_nat (wins_announced players.x (display s)))) /\
    score s !! players.o
      = Some (Num (Z.of_nat (wins_announced players.o (display s))))
}.

(** The score of [s'] is at least the score of [s], key by key. *)
Definition score_le (s s' : TicTacToe) : Prop :=
  forall p n, score s !! p = Some (Num n) ->
    exists n', score s' !! p = Some (Num n') /\ n <= n'.

(** ** The display on the page *)

(** What [DOMDisplay] keeps on the page, under the [#game] element that the
    page provides: the elements that carry an id (the two score lines) with
    their text, the [.row] elements with their [data-row] and, for each, its
    [.col] children with their [data-col] and text, and the text of the
    [.message] elements; each list in document order.  Selectors are built
    from the player tokens and the coordinates; they are modelled for tokens
    that are plain identifiers, as x and o are, and for integer coordinates. *)
Record Screen : Type := mkScreen {
  score_elements : list (string * string);
  row_elements : list (Z * list (Z * string));
  message_elements : list string
}.

(** The page before the game is started. *)
Definition page : Screen := mkScreen [] [] [].

(** A number, or an absent property, inside a template string. *)
Definition to_string (v : option number) : string :=
  match v with
  | Some (Num n) => pretty n
  | Some NaN => "NaN"
  | None => "undefined"
  end.

(** Update the first element of a list that passes [test]; [None] when no
    element passes (the selector finds nothing) or the update fails. *)
Fixpoint update_first {A : Type} (test : A -> bool) (f : A -> option A)
    (l : list A) : option (list A) :=
  match l with
  | [] => None
  | a :: rest =>
      if test a then a' ← f a; Some (a' :: rest)
      else rest' ← update_first test f rest; Some (a :: rest')
  end.

(** The methods of [DOMDisplay] on the page; [None] when the method raises
    (a property of [null] is read). *)
Module DOMDisplay.

(** [printGameBoard]: a row element per row of [boardData] and an empty cell
    element per cell, carrying their indices. *)
Definition printGameBoard (boardData : list (list string)) (scr : Screen)
  : option Screen :=
  let rows :=
    imap (fun i row => (Z.of_nat i, imap (fun j _ => (Z.of_nat j, blank)) row))
      boardData in
  Some (mkScreen (score_elements scr) (row_elements scr ++ rows)
          (message_elements scr)).

(** [updateBoard]: a token with the text [currentPlayer] is appended to the
    first cell with [data-col = col] of the first row with [data-row = row];
    raises when either is missing. *)
Definition updateBoard (row col : Z) (currentPlayer : string) (scr : Screen)
  : option Screen :=
  rows ← update_first (fun r => Z.eqb (fst r) row)
            (fun r =>
               cells ← update_first (fun c => Z.eqb (fst c) col)
                          (fun c => Some (fst c, snd c ++ currentPlayer))
                          (snd r);
               Some (fst r, cells))
            (row_elements scr);
  Some (mkScreen (score_elements scr) rows (message_elements scr)).

(** [clearGameBoard]: the text of every cell becomes ['']. *)
Definition clearGameBoard (scr : Screen) : option Screen :=
  Some (mkScreen (score_elements scr)
          (List.map (fun r => (fst r, List.map (fun c => (fst c, blank)) (snd r)))
             (row_elements scr))
          (message_elements scr)).

(** [printScoreBoard]. *)
Definition printScoreBoard (scoreData : gmap string number) (scr : Screen)
  : option Screen :=
  Some (mkScreen
          (score_elements scr ++
             [("score-x", "Player 1: " ++ to_string (scoreData !! "x"));
              ("score-o", "Player 2: " ++ to_string (scoreData !! "o"))])
          (row_elements scr) (message_elements scr)).

(** [updateScore]: the text of the first element with the id
    [score-currentPlayer]; raises when there is none. *)
Definition updateScore (currentScore : gmap string number)
    (currentPlayer : string) (scr : Screen) : option Screen :=
  let player :=
    if String.eqb currentPlayer "x" then "Player 1" else "Player 2" in
  let d := currentScore !! currentPlayer in
  scores ← update_first (fun e => String.eqb (fst e) ("score-" ++ currentPlayer))
              (fun e => Some (fst e, player ++ ": " ++ to_string d))
              (score_elements scr);
  Some (mkScreen scores (row_elements scr) (message_elements scr)).

(** The text of the message: [winner] counts as absent when it is
    [undefined] or ['']. *)
Definition message_text (winner : option string) : string :=
  let player :=
    if strict_eq winner "x" then "Player 1" else "Player 2" in
  match winner with
  | Some (String _ _) => player ++ " wins!"
  | _ => "Nobody wins!"
  end.

(** [printMessage]. *)
Definition printMessage (winner : option string) (scr : Screen) : option Screen :=
  Some (mkScreen (score_elements scr) (row_elements scr)
          (message_elements scr ++ [message_text winner])).

(** [clearMessage]: removes the first message; raises when there is none. *)
Definition clearMessage (scr : Screen) : option Screen :=
  match message_elements scr with
  | [] => None
  | _ :: rest => Some (mkScreen (score_elements scr) (row_elements scr) rest)
  end.

End DOMDisplay.

(** One call of the model on the display. *)
Definition show (c : DisplayCall) (scr : Screen) : option Screen :=
  match c with
  | bindHandler => Some scr
  | printGameBoard boardData => DOMDisplay.printGameBoard boardData scr
  | updateBoard row col p => DOMDisplay.updateBoard row col p scr
  | clearGameBoard => DOMDisplay.clearGameBoard scr
  | printScoreBoard scoreData => DOMDisplay.printScoreBoard scoreData scr
  | updateScore currentScore p => DOMDisplay.updateScore currentScore p scr
  | printMessage winner => DOMDisplay.printMessage winner scr
  | clearMessage => DOMDisplay.clearMessage scr
  end.

(** The page after the calls of a log, made in order; [None] when one of
    them raises. *)
Fixpoint replay (log : list DisplayCall) (scr : Screen) : option Screen :=
  match log with
  | [] => Some scr
  | c :: rest => scr' ← show c scr; replay rest scr'
  end.

(** The row elements that show the board [b]. *)
Definition rows_of (b : list (list string)) : list (Z * list (Z * string)) :=
  imap (fun i row => (Z.of_nat i, imap (fun j c => (Z.of_nat j, c)) row)) b.

(** The element a click lands on: the [l]-th cell of the [k]-th row element,
    or anything else (a token, a row, a message, the page). *)
Inductive target : Type :=
  | col_element (k l : nat)
  | other_element.

(** The listener of [bindHandler]: a click on a cell element is forwarded
    with the [data-row] of its parent and its own [data-col]; other clicks
    are dropped. *)
Definition forwarded (scr : Screen) (t : target) : option (Z * Z) :=
  match t with
  | col_element k l =>
      r ← row_elements scr !! k;
      c ← snd r !! l;
      Some (fst r, fst c)
  | other_element => None
  end.

(** What happens in the browser: a click somewhere, or the timer firing. *)
Inductive dom_event : Type :=
  | DomClick (t : target)
  | TimerFires.

(** The handler run for a browser event, with its result. *)
Definition dom_handle (s : TicTacToe) (e : dom_event) : result unit * TicTacToe :=
  match e with
  | DomClick t =>
      match scr ← replay (display s) page; forwarded scr t with
      | Some (row, col) => clickCell row col s
      | None => (Return tt, s)
      end
  | TimerFires => (Return tt, fire s)
  end.

(** The results of the handlers along a sequence of browser events. *)
Fixpoint dom_results (es : list dom_event) (s : TicTacToe) : list (result unit) :=
  match es with
  | [] => []
  | e :: rest => fst (dom_handle s e) :: dom_results rest (snd (dom_handle s e))
  end.

(** The screen shows the state: replaying the log raises nothing and gives
    the two score lines with the scores, the cells with the board, and the
    message of the finished round while the model awaits the reset. *)
Definition screen_shows (s : TicTacToe) : Prop :=
  exists scr,
    replay (display s) page = Some scr /\
    score_elements scr =
      [("score-x", "Player 1: " ++ to_string (score s !! "x"));
       ("score-o", "Player 2: " ++ to_string (score s !! "o"))] /\
    row_elements scr = rows_of (board s) /\
    (waiting s = false -> message_elements scr = []) /\
    (waiting s = true ->
       exists w, last (display s) = Some (printMessage w) /\
                 message_elements scr = [DOMDisplay.message_text w]).

(** A computation that only reads the object. *)
Definition readonly {A : Type} (m : M A) : Prop :=
  forall s, snd (m s) = s.

(** ** Running the monad *)

Lemma run_bind {A B : Type} (m : M A) (f : A -> M B) (s : TicTacToe) :
  (m ≫= f) s =
  match m s with
  | (Return a, s') => f a s'
  | (Throw e, s') => (Throw e, s')
  end.
Proof. reflexivity. Qed.

Lemma run_bind_return {A B : Type} (m : M A) (f : A -> M B) s a s' :
  m s = (Return a, s') -> (m ≫= f) s = f a s'.
Proof. intros H. rewrite run_bind, H. reflexivity. Qed.

Lemma run_bind_throw {A B : Type} (m : M A) (f : A -> M B) s e s' :
  m s = (Throw e, s') -> (m ≫= f) s = (Throw e, s').
Proof. intros H. rewrite run_bind, H. reflexivity. Qed.

Lemma readonly_ret {A : Type} (a : A) : readonly (mret a : M A).
Proof. intros s. reflexivity. Qed.

Lemma readonly_throw {A : Type} (e : error) : readonly (throw e : M A).
Proof. intros s. reflexivity. Qed.

Lemma readonly_gets {A : Type} (f : TicTacToe -> A) : readonly (gets f).
Proof. intros s. reflexivity. Qed.

Lemma readonly_bind {A B : Type} (m : M A) (f : A -> M B) :
  readonly m -> (forall a, readonly (f a)) -> readonly (m ≫= f).
Proof.
  intros Hm Hf s. rewrite run_bind.
  specialize (Hm s). destruct (m s) as [[a | e] s']; simpl in Hm; subst s'.
  - apply Hf.
  - reflexivity.
Qed.

Lemma readonly_read row col : readonly (read row col).
Proof.
  apply readonly_bind; [apply readonly_gets |].
  intros b. destruct (index b row); [apply readonly_ret | apply readonly_throw].
Qed.

Lemma readonly_cell_is_current row col : readonly (cell_is_current row col).
Proof.
  apply readonly_bind; [apply readonly_read | intros v].
  apply readonly_bind; [apply readonly_gets | intros p]. apply readonly_ret.
Qed.

Lemma readonly_andM a b : readonly a -> readonly b -> readonly (andM a b).
Proof.
  intros Ha Hb. apply readonly_bind; [exact Ha |].
  intros [|]; [exact Hb | apply readonly_ret].
Qed.

Lemma readonly_orM a b : readonly a -> readonly b -> readonly (orM a b).
Proof.
  intros Ha Hb. apply readonly_bind; [exact Ha |].
  intros [|]; [apply readonly_ret | exact Hb].
Qed.

Create HintDb readonly.
#[local] Hint Resolve readonly_cell_is_current readonly_andM readonly_orM
  readonly_ret : readonly.

Lemma readonly_isGameWon row col : readonly (isGameWon row col).
Proof.
  apply readonly_bind; [auto 10 with readonly |].
  intros [|]; apply readonly_ret.
Qed.

(** ** Boards of three by three *)

Lemma board_3x3_cells b :
  board_3x3 b ->
  exists c00 c01 c02 c10 c11 c12 c20 c21 c22 : string,
    b = [[c00; c01; c02]; [c10; c11; c12]; [c20; c21; c22]].
Proof.
  intros [Hlen Hrows].
  destruct b as [| r0 [| r1 [| r2 [| r3 b]]]]; try discriminate Hlen.
  apply Forall_cons in Hrows as [H0 Hrows].
  apply Forall_cons in Hrows as [H1 Hrows].
  apply Forall_cons in Hrows as [H2 _].
  destruct r0 as [| c00 [| c01 [| c02 [| ? ?]]]]; try discriminate H0.
  destruct r1 as [| c10 [| c11 [| c12 [| ? ?]]]]; try discriminate H1.
  destruct r2 as [| c20 [| c21 [| c22 [| ? ?]]]]; try discriminate H2.
  repeat eexists.
Qed.

Lemma createBoard_3x3 : board_3x3 createBoard.
Proof. split; [reflexivity | repeat constructor]. Qed.

Lemma in_range_cases (i : Z) : 0 <= i <= 2 -> i = 0 \/ i = 1 \/ i = 2.
Proof. lia. Qed.

Lemma index_out_of_range {A : Type} (a : list A) (i : Z) :
  ~ 0 <= i < Z.of_nat (length a) -> index a i = None.
Proof.
  intros H. unfold index. case_decide; [| reflexivity].
  apply lookup_ge_None. lia.
Qed.

Lemma index_in_range {A : Type} (a : list A) (i : Z) (v : A) :
  index a i = Some v -> 0 <= i < Z.of_nat (length a).
Proof.
  unfold index. case_decide; [| discriminate].
  intros Hl%lookup_lt_Some. lia.
Qed.

(** A cell that reads as a string lies inside its row: the assignment that
    [clickCell] makes after reading [''] never grows the row. *)
Lemma read_empty_in_range s row col v :
  read row col s = (Return (Some v), s) ->
  exists r, index (board s) row = Some r /\ 0 <= col < Z.of_nat (length r).
Proof.
  unfold read. rewrite run_bind. simpl.
  destruct (index (board s) row) as [r |] eqn:Hr; [| discriminate].
  intros [= Hc]. exists r. split; [reflexivity |].
  eapply index_in_range, Hc.
Qed.

Lemma length_assign {A : Type} (a : list A) (i : Z) (v : A) :
  length (assign a i v) = length a.
Proof. unfold assign. case_decide; [apply length_insert | reflexivity]. Qed.

Lemma index_assign_eq {A : Type} (a : list A) (i : Z) (v : A) :
  0 <= i < Z.of_nat (length a) -> index (assign a i v) i = Some v.
Proof.
  intros H. unfold index, assign. rewrite !decide_True by lia.
  apply list_lookup_insert_eq. lia.
Qed.

Lemma index_assign_ne {A : Type} (a : list A) (i j : Z) (v : A) :
  i <> j -> index (assign a i v) j = index a j.
Proof.
  intros H. unfold index, assign. case_decide; [| reflexivity].
  case_decide; [| reflexivity].
  apply list_lookup_insert_ne. lia.
Qed.

Lemma mark_3x3 b row col v : board_3x3 b -> board_3x3 (mark b row col v).
Proof.
  intros [Hlen Hrows]. unfold mark.
  destruct (index b row) as [r |] eqn:Hr; [| split; assumption].
  split; [rewrite length_assign; exact Hlen |].
  unfold assign at 1. case_decide; [| exact Hrows].
  apply Forall_insert; [exact Hrows |].
  rewrite length_assign.
  unfold index in Hr. case_decide; [| discriminate].
  eapply Forall_lookup_1 in Hrows; [exact Hrows | exact Hr].
Qed.

Lemma cell_mark_eq b row col v old :
  cell b row col = Some old -> cell (mark b row col v) row col = Some v.
Proof.
  unfold cell, mark. destruct (index b row) as [r |] eqn:Hr; [| discriminate].
  simpl. intros Hc.
  rewrite index_assign_eq by (eapply index_in_range, Hr). simpl.
  apply index_assign_eq. eapply index_in_range, Hc.
Qed.

Lemma cell_mark_ne b row col v i j :
  (i, j) <> (row, col) -> cell (mark b row col v) i j = cell b i j.
Proof.
  intros Hne. unfold cell, mark.
  destruct (index b row) as [r |] eqn:Hr; [| reflexivity].
  destruct (decide (i = row)) as [-> | Hi].
  - rewrite index_assign_eq by (eapply index_in_range, Hr). rewrite Hr. simpl.
    apply index_assign_ne. congruence.
  - rewrite index_assign_ne by congruence. reflexivity.
Qed.

Lemma index_row_3x3 b i :
  board_3x3 b -> 0 <= i <= 2 -> exists r, index b i = Some r /\ length r = 3%nat.
Proof.
  intros [Hlen Hrows] Hi. unfold index. rewrite decide_True by lia.
  destruct (lookup_lt_is_Some_2 b (Z.to_nat i)) as [r Hr]; [lia |].
  exists r. split; [exact Hr |].
  eapply Forall_lookup_1 in Hrows; [exact Hrows | exact Hr].
Qed.

Lemma cell_3x3 b row col :
  board_3x3 b -> 0 <= row <= 2 -> 0 <= col <= 2 -> exists v, cell b row col = Some v.
Proof.
  intros Hb Hrow Hcol.
  destruct (index_row_3x3 b row Hb Hrow) as (r & Hr & Hlen).
  unfold cell. rewrite Hr. simpl. unfold index. rewrite decide_True by lia.
  destruct (lookup_lt_is_Some_2 r (Z.to_nat col)) as [v Hv]; [lia |].
  exists v. exact Hv.
Qed.

(** ** What the methods compute *)

Lemma read_run s row col r :
  index (board s) row = Some r -> read row col s = (Return (index r col), s).
Proof. intros Hr. unfold read. rewrite run_bind. simpl. rewrite Hr. reflexivity. Qed.

Lemma read_throws s row col :
  index (board s) row = None -> read row col s = (Throw TypeError, s).
Proof. intros Hr. unfold read. rewrite run_bind. simpl. rewrite Hr. reflexivity. Qed.

Lemma read_cell s row col r :
  index (board s) row = Some r ->
  read row col s = (Return (cell (board s) row col), s).
Proof.
  intros Hr. rewrite (read_run s row col r Hr). unfold cell. rewrite Hr. reflexivity.
Qed.

Lemma write_run s row col v r :
  index (board s) row = Some r ->
  write row col v s = (Return tt, set_board (mark (board s) row col v) s).
Proof.
  intros Hr. unfold write, mark. rewrite run_bind. simpl. rewrite Hr. reflexivity.
Qed.

Lemma cell_is_current_run s row col r :
  index (board s) row = Some r ->
  cell_is_current row col s = (Return (holds (board s) (currentPlayer s) row col), s).
Proof.
  intros Hr. unfold cell_is_current.
  rewrite (run_bind_return _ _ _ _ _ (read_cell s row col r Hr)). reflexivity.
Qed.

Lemma andM_run (a b : M bool) s x y :
  a s = (Return x, s) -> b s = (Return y, s) -> andM a b s = (Return (x && y), s).
Proof.
  intros Ha Hb. unfold andM. rewrite (run_bind_return _ _ _ _ _ Ha).
  destruct x; [exact Hb | reflexivity].
Qed.

Lemma orM_run (a b : M bool) s x y :
  a s = (Return x, s) -> b s = (Return y, s) -> orM a b s = (Return (x || y), s).
Proof.
  intros Ha Hb. unfold orM. rewrite (run_bind_return _ _ _ _ _ Ha).
  destruct x; [reflexivity | exact Hb].
Qed.

(** On a 3x3 board and a row inside it, [isGameWon] returns, leaves the
    object alone, and its value is the disjunction of its four tests. *)
Lemma isGameWon_run s row col :
  board_3x3 (board s) -> 0 <= row <= 2 ->
  isGameWon row col s =
  (Return (isGameWon_value (board s) (currentPlayer s) row col), s).
Proof.
  intros Hb Hrow.
  destruct (index_row_3x3 _ 0 Hb ltac:(lia)) as (r0 & H0 & _).
  destruct (index_row_3x3 _ 1 Hb ltac:(lia)) as (r1 & H1 & _).
  destruct (index_row_3x3 _ 2 Hb ltac:(lia)) as (r2 & H2 & _).
  destruct (index_row_3x3 _ row Hb Hrow) as (r & Hr & _).
  unfold isGameWon.
  erewrite run_bind_return.
  2:{ repeat first
        [ apply orM_run | apply andM_run
        | eapply cell_is_current_run; eassumption ]. }
  fold (holds (board s) (currentPlayer s)).
  unfold isGameWon_value.
  destruct (_ || _); reflexivity.
Qed.

Lemma gameOver_run winner s : gameOver winner s = (Return tt, ended winner s).
Proof. reflexivity. Qed.

Lemma resetCallback_run s : resetCallback s = (Return tt, cleared s).
Proof.
  unfold cleared, resetCallback, resetBoard. rewrite !run_bind. simpl.
  rewrite <- app_assoc. reflexivity.
Qed.

Lemma filter_empty_length (r : list string) :
  (0 <? length (List.filter (fun col => String.eqb col blank) r))%nat
  = negb (forallb (fun c => negb (String.eqb c blank)) r).
Proof.
  induction r as [| c r IH]; [reflexivity |].
  simpl. destruct (String.eqb c blank); simpl; [reflexivity | exact IH].
Qed.

(** [stalemate.length < 1] says that no cell is empty. *)
Lemma stalemate_no_empty b : (length (stalemate_rows b) <? 1)%nat = no_empty b.
Proof.
  unfold stalemate_rows.
  induction b as [| r b IH]; [reflexivity |].
  simpl. rewrite filter_empty_length.
  destruct (forallb _ r); simpl; [exact IH | reflexivity].
Qed.

Lemma settle_run win stalemate s :
  waiting s = false ->
  settle win stalemate s =
  (Return tt,
   if win then won s
   else if (length stalemate <? 1)%nat then drawn s
   else switched s).
Proof.
  intros Hw. unfold settle. rewrite run_bind. simpl. rewrite Hw. simpl.
  destruct win; [reflexivity |].
  destruct (length stalemate <? 1)%nat; reflexivity.
Qed.

Lemma settle_waiting win stalemate s :
  waiting s = true -> settle win stalemate s = (Return tt, s).
Proof. intros Hw. unfold settle. rewrite run_bind. simpl. rewrite Hw. reflexivity. Qed.

Lemma settle_board win stalemate s :
  board (exec (settle win stalemate) s) = board s.
Proof.
  unfold exec. destruct (waiting s) eqn:Hw.
  - rewrite settle_waiting by exact Hw. reflexivity.
  - rewrite settle_run by exact Hw.
    destruct win; [reflexivity |].
    destruct (length stalemate <? 1)%nat; reflexivity.
Qed.

(** *** [clickCell] of the TypeScript source, case by case *)

Lemma clickCell_throws s row col :
  index (board s) row = None -> clickCell row col s = (Throw TypeError, s).
Proof.
  intros Hr. unfold clickCell.
  apply run_bind_throw, read_throws, Hr.
Qed.

Lemma clickCell_skips s row col r :
  index (board s) row = Some r ->
  strict_eq (cell (board s) row col) blank && negb (waiting s) = false ->
  clickCell row col s = (Return tt, s).
Proof.
  intros Hr Hguard. unfold clickCell.
  rewrite (run_bind_return _ _ _ _ _ (read_cell s row col r Hr)).
  rewrite run_bind. simpl. rewrite Hguard. reflexivity.
Qed.

Lemma clickCell_marks s row col :
  board_3x3 (board s) -> 0 <= row <= 2 ->
  cell (board s) row col = Some blank -> waiting s = false ->
  clickCell row col s =
  (Return tt,
   let s1 := marked row col s in
   if isGameWon_value (board s1) (currentPlayer s) row col then won s1
   else if no_empty (board s1) then drawn s1
   else switched s1).
Proof.
  intros Hb Hrow Hcell Hw.
  destruct (index_row_3x3 _ row Hb Hrow) as (r & Hr & _).
  unfold clickCell.
  rewrite (run_bind_return _ _ _ _ _ (read_cell s row col r Hr)).
  rewrite run_bind. simpl. rewrite Hcell, Hw. simpl.
  rewrite run_bind. simpl.
  rewrite (run_bind_return _ _ _ _ _ (write_run s row col _ r Hr)).
  rewrite run_bind. simpl. fold (marked row col s).
  rewrite (run_bind_return _ _ _ _ _
             (isGameWon_run (marked row col s) row col
                (mark_3x3 _ _ _ _ Hb) Hrow)).
  rewrite run_bind. simpl.
  rewrite settle_run by exact Hw.
  rewrite stalemate_no_empty. reflexivity.
Qed.

(** ** Lines on a 3x3 board *)

(** The proofs of this section enumerate: the board is opened into its nine
    cells, the coordinates into their nine values, and the comparisons of a
    cell with a mark are taken as truth values. *)

Ltac eval_cells :=
  repeat match goal with
  | |- context [mark ?b ?i ?j ?v] =>
      let t := eval vm_compute in (mark b i j v) in change (mark b i j v) with t
  | |- context [cell ?b ?i ?j] =>
      let t := eval vm_compute in (cell b i j) in change (cell b i j) with t
  end.

Ltac split_atoms :=
  repeat match goal with
  | |- context [String.eqb ?a ?b] =>
      destruct (String.eqb a b); cbn [andb orb negb]; try (intros; congruence)
  end.

Ltac unfold_lines :=
  cbv [has_line completes_line through lines line_of existsb forallb
       isGameWon_value holds fst snd Z.eqb Pos.eqb];
  eval_cells; cbv [strict_eq]; cbn [andb orb negb].

Ltac open_board Hb Hrow Hcol :=
  match type of Hb with
  | board_3x3 ?b =>
      destruct (board_3x3_cells b Hb) as (?c & ?c & ?c & ?c & ?c & ?c & ?c & ?c & ?c & ->);
      clear Hb;
      destruct (in_range_cases _ Hrow) as [-> | [-> | ->]];
      destruct (in_range_cases _ Hcol) as [-> | [-> | ->]];
      clear Hrow Hcol
  end.

(** A positive answer of [isGameWon] is backed by a line. *)
Lemma isGameWon_value_line b p row col :
  board_3x3 b -> 0 <= row <= 2 -> 0 <= col <= 2 ->
  isGameWon_value b p row col = true -> has_line b p = true.
Proof.
  intros Hb Hrow Hcol. open_board Hb Hrow Hcol;
    unfold_lines; try (intros; congruence); split_atoms.
Qed.

(** The four tests of [isGameWon] cover every line through the cell. *)
Lemma completes_isGameWon_value b p row col :
  board_3x3 b -> 0 <= row <= 2 -> 0 <= col <= 2 ->
  completes_line b p row col = true -> isGameWon_value b p row col = true.
Proof.
  intros Hb Hrow Hcol. open_board Hb Hrow Hcol;
    unfold_lines; try (intros; congruence); split_atoms.
Qed.

(** A line that appears when one cell is set passes through that cell. *)
Lemma new_line_through b p row col v :
  board_3x3 b -> 0 <= row <= 2 -> 0 <= col <= 2 ->
  has_line b p = false ->
  has_line (mark b row col v) p = true ->
  completes_line (mark b row col v) p row col = true.
Proof.
  intros Hb Hrow Hcol. open_board Hb Hrow Hcol;
    unfold_lines; try (intros; congruence); split_atoms.
Qed.

(** Setting a cell that did not hold [q] to another mark than [q] neither
    makes nor breaks a line of [q]. *)
Lemma has_line_mark_other b p q row col old :
  board_3x3 b -> 0 <= row <= 2 -> 0 <= col <= 2 ->
  cell b row col = Some old ->
  String.eqb old q = false -> String.eqb p q = false ->
  has_line (mark b row col p) q = has_line b q.
Proof.
  intros Hb Hrow Hcol. open_board Hb Hrow Hcol;
    intros [= ->] Hold Hp; unfold_lines; rewrite ?Hold, ?Hp;
    cbn [andb orb negb]; try reflexivity; split_atoms; reflexivity.
Qed.

Lemma mark_same b row col v :
  cell b row col = Some v -> mark b row col v = b.
Proof.
  unfold cell, mark, assign. destruct (index b row) as [r |] eqn:Hr; [| discriminate].
  simpl. intros Hc.
  pose proof (index_in_range _ _ _ Hr) as Hrow.
  pose proof (index_in_range _ _ _ Hc) as Hcol.
  unfold index in Hr, Hc.
  rewrite decide_True in Hr by lia. rewrite decide_True in Hc by lia.
  rewrite (decide_True (P := 0 <= col < _)) by exact Hcol.
  rewrite (list_insert_id r) by exact Hc.
  rewrite decide_True by exact Hrow. apply list_insert_id, Hr.
Qed.

Lemma assign_assign {A : Type} (a : list A) (i : Z) (v w : A) :
  assign (assign a i v) i w = assign a i w.
Proof.
  unfold assign. destruct (decide (0 <= i < Z.of_nat (length a))) as [Hi | Hi].
  - rewrite length_insert, decide_True by exact Hi.
    apply list_insert_insert_eq.
  - rewrite decide_False by exact Hi. reflexivity.
Qed.

Lemma mark_mark b row col v w :
  mark (mark b row col v) row col w = mark b row col w.
Proof.
  unfold mark. destruct (index b row) as [r |] eqn:Hr; [| rewrite Hr; reflexivity].
  pose proof (index_in_range _ _ _ Hr) as Hrow.
  rewrite index_assign_eq by exact Hrow.
  rewrite !assign_assign. reflexivity.
Qed.

(** The answer of [isGameWon] after the current player's mark at
    ([row], [col]), when the player had no line without that mark. *)
Lemma isGameWon_value_has_line b p row col :
  board_3x3 b -> 0 <= row <= 2 -> 0 <= col <= 2 ->
  cell b row col = Some p ->
  has_line (mark b row col blank) p = false ->
  isGameWon_value b p row col = has_line b p.
Proof.
  intros Hb Hrow Hcol Hcell Hbefore.
  destruct (has_line b p) eqn:Hline.
  - apply completes_isGameWon_value; try assumption.
    rewrite <- (mark_same b row col p Hcell), <- (mark_mark b row col blank p).
    apply new_line_through; try assumption.
    + apply mark_3x3, Hb.
    + rewrite mark_mark, (mark_same b row col p Hcell). exact Hline.
  - destruct (isGameWon_value b p row col) eqn:Hwon; [| reflexivity].
    apply isGameWon_value_line in Hwon; try assumption. congruence.
Qed.

(** ** Display calls on the page *)

Lemma replay_app log1 log2 scr :
  replay (log1 ++ log2) scr = replay log1 scr ≫= replay log2.
Proof.
  revert scr. induction log1 as [| c log1 IH]; intros scr; [reflexivity |].
  simpl. destruct (show c scr) as [scr' |]; [apply IH | reflexivity].
Qed.

Lemma replay_snoc log c scr :
  replay (log ++ [c]) scr = replay log scr ≫= show c.
Proof.
  rewrite replay_app. destruct (replay log scr) as [scr' |]; [| reflexivity].
  simpl. destruct (show c scr'); reflexivity.
Qed.

(** Showing a mark on an empty cell of the displayed board displays the
    marked board. *)
Lemma updateBoard_rows_of b row col p sc msgs :
  board_3x3 b -> 0 <= row <= 2 -> 0 <= col <= 2 ->
  cell b row col = Some blank ->
  DOMDisplay.updateBoard row col p (mkScreen sc (rows_of b) msgs)
  = Some (mkScreen sc (rows_of (mark b row col p)) msgs).
Proof.
  intros Hb Hrow Hcol. open_board Hb Hrow Hcol;
    vm_compute; intros [= ->]; reflexivity.
Qed.

Lemma clearGameBoard_rows_of b sc msgs :
  board_3x3 b ->
  DOMDisplay.clearGameBoard (mkScreen sc (rows_of b) msgs)
  = Some (mkScreen sc (rows_of createBoard) msgs).
Proof.
  intros Hb.
  destruct (board_3x3_cells b Hb) as (? & ? & ? & ? & ? & ? & ? & ? & ? & ->).
  reflexivity.
Qed.

Lemma updateScore_x sc tx to rows msgs :
  DOMDisplay.updateScore sc "x" (mkScreen [("score-x", tx); ("score-o", to)] rows msgs)
  = Some (mkScreen [("score-x", "Player 1: " ++ to_string (sc !! "x"));
                    ("score-o", to)] rows msgs).
Proof. reflexivity. Qed.

Lemma updateScore_o sc tx to rows msgs :
  DOMDisplay.updateScore sc "o" (mkScreen [("score-x", tx); ("score-o", to)] rows msgs)
  = Some (mkScreen [("score-x", tx);
                    ("score-o", "Player 2: " ++ to_string (sc !! "o"))] rows msgs).
Proof. reflexivity. Qed.

(** When the page shows the state and the player to move is x or o, the
    calls that a mark makes on the display find their elements, and the page
    shows the state after the click. *)
Lemma screen_shows_marked s row col :
  board_3x3 (board s) -> 0 <= row <= 2 -> 0 <= col <= 2 ->
  currentPlayer s = players.x \/ currentPlayer s = players.o ->
  screen_shows s ->
  waiting s = false -> cell (board s) row col = Some blank ->
  screen_shows (exec (clickCell row col) s).
Proof.
  intros Hb Hrow Hcol Hp (scr & Hrep & Hsc & Hrows & Hmsg0 & _) Hw Hcell.
  specialize (Hmsg0 Hw).
  destruct scr as [sc rows msgs]. simpl in Hsc, Hrows, Hmsg0. subst sc rows msgs.
  pose proof (updateBoard_rows_of (board s) row col (currentPlayer s)
                [("score-x", "Player 1: " ++ to_string (score s !! "x"));
                 ("score-o", "Player 2: " ++ to_string (score s !! "o"))]
                [] Hb Hrow Hcol Hcell) as Hupd.
  unfold exec. rewrite clickCell_marks by assumption. cbv zeta.
  destruct (isGameWon_value _ _ row col).
  - (* won *)
    unfold screen_shows, won, ended, marked. simpl.
    rewrite !replay_snoc, Hrep. simpl. rewrite Hupd. simpl.
    destruct Hp as [Hp | Hp]; rewrite Hp.
    + rewrite updateScore_x. simpl. eexists. split; [reflexivity |]. simpl.
      rewrite (lookup_insert_ne _ players.x "o") by discriminate.
      repeat split; try reflexivity; try discriminate.
      intros _. eexists. split; [apply last_snoc | reflexivity].
    + rewrite updateScore_o. simpl. eexists. split; [reflexivity |]. simpl.
      rewrite (lookup_insert_ne _ players.o "x") by discriminate.
      repeat split; try reflexivity; try discriminate.
      intros _. eexists. split; [apply last_snoc | reflexivity].
  - destruct (no_empty _).
    + (* drawn *)
      unfold screen_shows, drawn, ended, marked. simpl.
      rewrite !replay_snoc, Hrep. simpl. rewrite Hupd. simpl.
      eexists. split; [reflexivity |]. simpl.
      repeat split; try reflexivity; try discriminate.
      intros _. eexists. split; [apply last_snoc | reflexivity].
    + (* switched *)
      unfold screen_shows, switched, marked. simpl.
      rewrite !replay_snoc, Hrep. simpl. rewrite Hupd.
      eexists. split; [reflexivity |]. simpl.
      repeat split; try reflexivity. rewrite Hw. discriminate.
Qed.

(** Under the same conditions the calls made at the end of a click find
    their elements. *)
Lemma settle_replays win stalemate s :
  currentPlayer s = players.x \/ currentPlayer s = players.o ->
  screen_shows s ->
  exists scr, replay (display (exec (settle win stalemate) s)) page = Some scr.
Proof.
  intros Hp (scr & Hrep & Hsc & _). unfold exec.
  destruct (waiting s) eqn:Hw.
  - rewrite settle_waiting by exact Hw. exists scr. exact Hrep.
  - rewrite settle_run by exact Hw.
    destruct scr as [sc rows msgs]. simpl in Hsc. subst sc.
    destruct win.
    + unfold won, ended. simpl. rewrite !replay_snoc, Hrep. simpl.
      destruct Hp as [Hp | Hp]; rewrite Hp;
        [rewrite updateScore_x | rewrite updateScore_o];
        simpl; eexists; reflexivity.
    + destruct (length stalemate <? 1)%nat.
      * unfold drawn, ended. simpl. rewrite replay_snoc, Hrep. simpl.
        eexists. reflexivity.
      * eexists. exact Hrep.
Qed.

Lemma cleared_rows_blank (rows : list (Z * list (Z * string))) :
  Forall (fun r => Forall (fun c => snd c = blank) (snd r))
    (List.map (fun r => (fst r, List.map (fun c => (fst c, blank)) (snd r))) rows).
Proof.
  induction rows as [| r rows IH]; constructor; [| exact IH].
  simpl. induction (snd r) as [| c cells IHc]; constructor; [reflexivity | exact IHc].
Qed.

(** Evaluate [screen_shows] on a closed state. *)
Ltac screen_by_evaluation :=
  eexists;
  split; [vm_compute; reflexivity |];
  split; [vm_compute; reflexivity |];
  split; [vm_compute; reflexivity |];
  split;
    [ let Hw := fresh in
      intros Hw; vm_compute in Hw;
      first [discriminate Hw | vm_compute; reflexivity]
    | let Hw := fresh in
      intros Hw; vm_compute in Hw;
      first [discriminate Hw
            | eexists; split; vm_compute; reflexivity] ].

(** * The claims *)

(** ** The win test *)

(** C1. On a 3x3 board and for coordinates in 0..2, [isGameWon] returns
    [true] whenever one of the eight lines that pass through the activated
    cell consists entirely of the current player's marks, whatever cell of
    the line was activated last.  When moreover the activated cell holds the
    current player's mark and the player had no line before that mark was
    placed (the board with that cell empty has none), [isGameWon] returns
    exactly whether one of the eight lines consists entirely of the player's
    marks, and it does not touch the object. *)
Theorem isGameWon_detects_lines (s : TicTacToe) (row col : Z) :
  board_3x3 (board s) -> 0 <= row <= 2 -> 0 <= col <= 2 ->
  (forall l, In l lines -> through row col l = true ->
     line_of (board s) (currentPlayer s) l = true ->
     isGameWon row col s = (Return true, s))
  /\ (cell (board s) row col = Some (currentPlayer s) ->
      has_line (mark (board s) row col blank) (currentPlayer s) = false ->
      isGameWon row col s = (Return (has_line (board s) (currentPlayer s)), s)).
Proof.
  intros Hb Hrow Hcol. rewrite (isGameWon_run s row col Hb Hrow). split.
  - intros l Hl Hthrough Hfull.
    rewrite completes_isGameWon_value; try assumption; [reflexivity |].
    unfold completes_line. apply existsb_exists. exists l.
    split; [exact Hl |]. rewrite Hthrough, Hfull. reflexivity.
  - intros Hcell Hbefore.
    rewrite isGameWon_value_has_line; try assumption. reflexivity.
Qed.

Lemma isGameWon_detects_lines_witness :
  let s := marked 0 2 x_to_win in
  (board_3x3 (board s) /\ 0 <= 0 <= 2 /\ 0 <= 2 <= 2 /\
   cell (board s) 0 2 = Some (currentPlayer s) /\
   has_line (mark (board s) 0 2 blank) (currentPlayer s) = false)
  /\ isGameWon 0 2 s = (Return (has_line (board s) (currentPlayer s)), s)
  /\ has_line (board s) (currentPlayer s) = true.
Proof.
  intros s.
  assert (Hb : board_3x3 (board s)) by (vm_compute; split; [reflexivity | repeat constructor]).
  assert (Hrow : 0 <= 0 <= 2) by lia.
  assert (Hcol : 0 <= 2 <= 2) by lia.
  assert (Hcell : cell (board s) 0 2 = Some (currentPlayer s))
    by (vm_compute; reflexivity).
  assert (Hbefore : has_line (mark (board s) 0 2 blank) (currentPlayer s) = false)
    by (vm_compute; reflexivity).
  split; [exact (conj Hb (conj Hrow (conj Hcol (conj Hcell Hbefore)))) |].
  split; [| vm_compute; reflexivity].
  exact (proj2 (isGameWon_detects_lines s 0 2 Hb Hrow Hcol) Hcell Hbefore).
Defined.

(** ** Clicks that are ignored *)

(** The TypeScript [clickCell] ignores a click on an occupied cell of an
    active round: it returns and the object is the same. *)
Lemma clickCell_occupied_noop (s : TicTacToe) (row col : Z) :
  board_3x3 (board s) -> 0 <= row <= 2 -> 0 <= col <= 2 ->
  waiting s = false -> cell (board s) row col <> Some blank ->
  clickCell row col s = (Return tt, s).
Proof.
  intros Hb Hrow Hcol Hw Hcell.
  destruct (index_row_3x3 _ row Hb Hrow) as (r & Hr & _).
  apply (clickCell_skips s row col r Hr).
  destruct (cell (board s) row col) as [v |] eqn:Hv; [| reflexivity].
  simpl. destruct (String.eqb_spec v blank); [congruence | reflexivity].
Qed.

(** C2. The claim holds of the TypeScript [clickCell] (lemma
    [clickCell_occupied_noop]) and fails on [clickCell] of [tictactoe.js],
    whose end-of-round tests run on every click: after x has marked (0,0) the
    round is active, (0,0) is occupied and o is to move; a second click on
    (0,0) marks nothing and hands the turn back to x. *)
Theorem JavaScript_clickCell_occupied_switches_player :
  let s := exec (JavaScript.clickCell 0 0) initial in
  waiting s = false /\ cell (board s) 0 0 = Some "x" /\ currentPlayer s = "o" /\
  JavaScript.clickCell 0 0 s = (Return tt, switched s) /\
  board (switched s) = board s /\ currentPlayer (switched s) = "x".
Proof. vm_compute. repeat split; reflexivity. Qed.

(** With that variant a player can mark twice in a row: after the clicks
    (0,0), (0,0), (0,1) the board holds two x and no o. *)
Lemma JavaScript_same_player_marks_twice :
  board (run_with JavaScript.clickCell [Click 0 0; Click 0 0; Click 0 1] initial)
  = [["x"; "x"; blank]; [blank; blank; blank]; [blank; blank; blank]].
Proof. vm_compute. reflexivity. Qed.

(** C7. While the model awaits the reset, a click at any coordinates leaves
    the whole object as it is, and so the board, both scores and the current
    player; this holds of both variants of [clickCell], also when the call
    raises because the row does not exist. *)
Theorem clickCell_waiting_noop (s : TicTacToe) (row col : Z) :
  waiting s = true ->
  exec (clickCell row col) s = s /\ exec (JavaScript.clickCell row col) s = s.
Proof.
  intros Hw. unfold exec. split.
  - destruct (index (board s) row) as [r |] eqn:Hr.
    + rewrite (clickCell_skips s row col r Hr); [reflexivity |].
      rewrite Hw. apply andb_false_r.
    + rewrite clickCell_throws by exact Hr. reflexivity.
  - unfold JavaScript.clickCell.
    destruct (index (board s) row) as [r |] eqn:Hr.
    + rewrite (run_bind_return _ _ _ _ _ (read_cell s row col r Hr)).
      rewrite run_bind. simpl. rewrite Hw, andb_false_r.
      rewrite run_bind. simpl. rewrite run_bind.
      pose proof (readonly_isGameWon row col s) as Hro.
      destruct (isGameWon row col s) as [[win | e] s']; simpl in Hro; subst s';
        [| reflexivity].
      rewrite run_bind. simpl. rewrite settle_waiting by exact Hw. reflexivity.
    + rewrite (run_bind_throw _ _ _ _ _ (read_throws s row col Hr)). reflexivity.
Qed.

Lemma clickCell_waiting_noop_witness :
  waiting x_has_won = true /\
  exec (clickCell 1 0) x_has_won = x_has_won /\
  exec (JavaScript.clickCell 1 0) x_has_won = x_has_won.
Proof.
  assert (Hw : waiting x_has_won = true) by (vm_compute; reflexivity).
  split; [exact Hw |]. exact (clickCell_waiting_noop x_has_won 1 0 Hw).
Defined.

(** ** The end of a round *)

(** After a mark placed by a player who had no line, [isGameWon] says
    whether the mark completed a line. *)
Lemma isGameWon_value_completes b p row col :
  board_3x3 b -> 0 <= row <= 2 -> 0 <= col <= 2 ->
  has_line b p = false ->
  isGameWon_value (mark b row col p) p row col
  = completes_line (mark b row col p) p row col.
Proof.
  intros Hb Hrow Hcol Hnone.
  pose proof (mark_3x3 b row col p Hb) as Hb'.
  destruct (completes_line (mark b row col p) p row col) eqn:Hc.
  - apply completes_isGameWon_value; assumption.
  - destruct (isGameWon_value (mark b row col p) p row col) eqn:Hwon; [| reflexivity].
    apply isGameWon_value_line in Hwon; try assumption.
    apply new_line_through in Hwon; try assumption. congruence.
Qed.

Lemma last_display_won s :
  last (display (won s)) = Some (printMessage (Some (currentPlayer s))).
Proof. unfold won, ended. simpl. apply last_snoc. Qed.

Lemma last_display_drawn s : last (display (drawn s)) = Some (printMessage None).
Proof. unfold drawn, ended. simpl. apply last_snoc. Qed.

Lemma last_display_switched_marked s row col :
  last (display (switched (marked row col s)))
  = Some (updateBoard row col (currentPlayer s)).
Proof. unfold switched, marked. simpl. apply last_snoc. Qed.

(** C3. In an active round in which the player to move [p], x or o, has no
    line yet, and with the page showing the state (so that the display finds
    the elements it is told to update), a click on an empty cell returns with
    the cell marked and the page showing the new state; the round ends as a
    draw (the no-winner message is the last thing displayed) if and only if
    no cell of the board is empty and the mark completed no line.  On a draw
    the scores are unchanged and the model awaits the reset.  A mark that
    completes a line ends the round as a win of [p] (the message names [p]),
    whether or not it filled the last empty cell. *)
Theorem clickCell_draw_iff (s : TicTacToe) (row col : Z) :
  board_3x3 (board s) -> 0 <= row <= 2 -> 0 <= col <= 2 ->
  waiting s = false -> cell (board s) row col = Some blank ->
  has_line (board s) (currentPlayer s) = false ->
  currentPlayer s = players.x \/ currentPlayer s = players.o ->
  screen_shows s ->
  let p := currentPlayer s in
  let b' := mark (board s) row col p in
  exists s',
    clickCell row col s = (Return tt, s') /\ screen_shows s' /\ board s' = b' /\
    (last (display s') = Some (printMessage None) <->
       no_empty b' = true /\ completes_line b' p row col = false) /\
    (last (display s') = Some (printMessage None) ->
       score s' = score s /\ waiting s' = true) /\
    (completes_line b' p row col = true ->
       last (display s') = Some (printMessage (Some p)) /\ waiting s' = true).
Proof.
  intros Hb Hrow Hcol Hw Hcell Hnone Hp Hshow p b'.
  pose proof (screen_shows_marked s row col Hb Hrow Hcol Hp Hshow Hw Hcell)
    as Hshow'.
  unfold exec in Hshow'. rewrite clickCell_marks in Hshow' by assumption.
  eexists. split; [apply clickCell_marks; assumption |].
  split; [exact Hshow' |]. clear Hshow'.
  cbv zeta. change (board (marked row col s)) with b'.
  unfold b', p. rewrite isGameWon_value_completes by assumption.
  fold p. fold b'.
  destruct (completes_line b' p row col) eqn:Hc.
  - split; [reflexivity |]. rewrite last_display_won.
    split; [split; [discriminate | intros [_ [=]]] |].
    split; [discriminate |]. intros _. split; reflexivity.
  - destruct (no_empty b') eqn:He.
    + split; [reflexivity |]. rewrite last_display_drawn.
      split; [split; auto |]. split; [| discriminate].
      intros _. split; reflexivity.
    + split; [reflexivity |]. rewrite last_display_switched_marked.
      split; [split; [discriminate | intros [[=] _]] |].
      split; discriminate.
Qed.

Lemma clickCell_draw_iff_witness :
  let s := x_to_draw in
  let p := currentPlayer s in
  let b' := mark (board s) 2 2 p in
  (board_3x3 (board s) /\ 0 <= 2 <= 2 /\ waiting s = false /\
   cell (board s) 2 2 = Some blank /\ has_line (board s) p = false /\
   (currentPlayer s = players.x \/ currentPlayer s = players.o) /\
   screen_shows s)
  /\ exists s',
    clickCell 2 2 s = (Return tt, s') /\ screen_shows s' /\ board s' = b' /\
    (last (display s') = Some (printMessage None) <->
       no_empty b' = true /\ completes_line b' p 2 2 = false) /\
    (last (display s') = Some (printMessage None) ->
       score s' = score s /\ waiting s' = true) /\
    (completes_line b' p 2 2 = true ->
       last (display s') = Some (printMessage (Some p)) /\ waiting s' = true).
Proof.
  intros s p b'.
  assert (Hb : board_3x3 (board s)) by (vm_compute; split; [reflexivity | repeat constructor]).
  assert (Hr : 0 <= 2 <= 2) by lia.
  assert (Hw : waiting s = false) by (vm_compute; reflexivity).
  assert (Hcell : cell (board s) 2 2 = Some blank) by (vm_compute; reflexivity).
  assert (Hnone : has_line (board s) p = false) by (vm_compute; reflexivity).
  assert (Hp : currentPlayer s = players.x \/ currentPlayer s = players.o)
    by (left; vm_compute; reflexivity).
  assert (Hshow : screen_shows s) by screen_by_evaluation.
  split; [exact (conj Hb (conj Hr (conj Hw (conj Hcell (conj Hnone
                  (conj Hp Hshow)))))) |].
  exact (clickCell_draw_iff s 2 2 Hb Hr Hr Hw Hcell Hnone Hp Hshow).
Defined.

(** C4. In an active round, with the player to move [p] x or o and the page
    showing the state, a click on an empty cell whose mark completes a line
    returns with the score of [p] raised by exactly one (for a score in the
    range where the addition of numbers is exact), every other entry of the
    score as it was, the model awaiting the reset, and the page showing the
    new state. *)
Theorem clickCell_win_scores (s : TicTacToe) (row col : Z) (n : Z) :
  board_3x3 (board s) -> 0 <= row <= 2 -> 0 <= col <= 2 ->
  waiting s = false -> cell (board s) row col = Some blank ->
  completes_line (mark (board s) row col (currentPlayer s)) (currentPlayer s) row col
    = true ->
  score s !! currentPlayer s = Some (Num n) -> - 2 ^ 53 <= n < 2 ^ 53 ->
  currentPlayer s = players.x \/ currentPlayer s = players.o ->
  screen_shows s ->
  exists s',
    clickCell row col s = (Return tt, s') /\ screen_shows s' /\
    score s' !! currentPlayer s = Some (Num (n + 1)) /\
    (forall q, q <> currentPlayer s -> score s' !! q = score s !! q) /\
    waiting s' = true.
Proof.
  intros Hb Hrow Hcol Hw Hcell Hline Hn Hsafe Hp Hshow.
  pose proof (screen_shows_marked s row col Hb Hrow Hcol Hp Hshow Hw Hcell)
    as Hshow'.
  unfold exec in Hshow'. rewrite clickCell_marks in Hshow' by assumption.
  eexists. split; [apply clickCell_marks; assumption |].
  split; [exact Hshow' |]. clear Hshow'.
  cbv zeta. change (board (marked row col s)) with
    (mark (board s) row col (currentPlayer s)).
  rewrite completes_isGameWon_value; try assumption; [| apply mark_3x3, Hb].
  unfold won, ended, marked. simpl. rewrite Hn. simpl.
  split; [apply lookup_insert_eq |].
  split; [| reflexivity].
  intros q Hq. apply lookup_insert_ne. congruence.
Qed.

Lemma clickCell_win_scores_witness :
  let s := x_to_win in
  (board_3x3 (board s) /\ 0 <= 0 <= 2 /\ 0 <= 2 <= 2 /\ waiting s = false /\
   cell (board s) 0 2 = Some blank /\
   completes_line (mark (board s) 0 2 (currentPlayer s)) (currentPlayer s) 0 2 = true /\
   score s !! currentPlayer s = Some (Num 0) /\ - 2 ^ 53 <= 0 < 2 ^ 53 /\
   (currentPlayer s = players.x \/ currentPlayer s = players.o) /\
   screen_shows s)
  /\ exists s',
    clickCell 0 2 s = (Return tt, s') /\ screen_shows s' /\
    score s' !! currentPlayer s = Some (Num (0 + 1)) /\
    (forall q, q <> currentPlayer s -> score s' !! q = score s !! q) /\
    waiting s' = true.
Proof.
  intros s.
  assert (Hb : board_3x3 (board s)) by (vm_compute; split; [reflexivity | repeat constructor]).
  assert (Hrow : 0 <= 0 <= 2) by lia.
  assert (Hcol : 0 <= 2 <= 2) by lia.
  assert (Hw : waiting s = false) by (vm_compute; reflexivity).
  assert (Hcell : cell (board s) 0 2 = Some blank) by (vm_compute; reflexivity).
  assert (Hline : completes_line (mark (board s) 0 2 (currentPlayer s))
                    (currentPlayer s) 0 2 = true) by (vm_compute; reflexivity).
  assert (Hn : score s !! currentPlayer s = Some (Num 0)) by (vm_compute; reflexivity).
  assert (Hsafe : - 2 ^ 53 <= 0 < 2 ^ 53) by lia.
  assert (Hp : currentPlayer s = players.x \/ currentPlayer s = players.o)
    by (left; vm_compute; reflexivity).
  assert (Hshow : screen_shows s) by screen_by_evaluation.
  split;
    [exact (conj Hb (conj Hrow (conj Hcol (conj Hw (conj Hcell (conj Hline
              (conj Hn (conj Hsafe (conj Hp Hshow))))))))) |].
  exact (clickCell_win_scores s 0 2 0 Hb Hrow Hcol Hw Hcell Hline Hn Hsafe Hp Hshow).
Defined.

(** ** The deferred reset *)

(** C5. In the awaiting-reset phase, with the page showing the state (so
    that the message to clear is there), the callback scheduled by [gameOver]
    returns and leaves a fresh board, all nine cells empty, with the round
    active again; on the page the message is gone and every cell is empty. *)
Theorem resetCallback_clears (s : TicTacToe) :
  waiting s = true -> screen_shows s ->
  exists s' scr',
    resetCallback s = (Return tt, s') /\
    board s' = createBoard /\
    (forall row col, 0 <= row <= 2 -> 0 <= col <= 2 ->
       cell (board s') row col = Some blank) /\
    waiting s' = false /\
    replay (display s') page = Some scr' /\
    message_elements scr' = [] /\
    Forall (fun r => Forall (fun c => snd c = blank) (snd r)) (row_elements scr').
Proof.
  intros Hw (scr & Hrep & _ & _ & _ & Hmsg1).
  destruct (Hmsg1 Hw) as (w & _ & Hmsg).
  exists (cleared s). eexists.
  split; [apply resetCallback_run |]. split; [reflexivity |].
  split.
  { intros row col Hrow Hcol. simpl.
    destruct (in_range_cases _ Hrow) as [-> | [-> | ->]];
      destruct (in_range_cases _ Hcol) as [-> | [-> | ->]]; reflexivity. }
  split; [reflexivity |].
  split.
  { simpl.
    change (display s ++ [clearMessage; clearGameBoard])%list
      with (display s ++ [clearMessage] ++ [clearGameBoard])%list.
    rewrite app_assoc, !replay_snoc, Hrep. simpl.
    unfold DOMDisplay.clearMessage. rewrite Hmsg. simpl. reflexivity. }
  split; [reflexivity |]. simpl. apply cleared_rows_blank.
Qed.

Lemma resetCallback_clears_witness :
  (waiting x_has_won = true /\ screen_shows x_has_won) /\
  exists s' scr',
    resetCallback x_has_won = (Return tt, s') /\
    board s' = createBoard /\
    (forall row col, 0 <= row <= 2 -> 0 <= col <= 2 ->
       cell (board s') row col = Some blank) /\
    waiting s' = false /\
    replay (display s') page = Some scr' /\
    message_elements scr' = [] /\
    Forall (fun r => Forall (fun c => snd c = blank) (snd r)) (row_elements scr').
Proof.
  assert (Hw : waiting x_has_won = true) by (vm_compute; reflexivity).
  assert (Hshow : screen_shows x_has_won) by screen_by_evaluation.
  split; [exact (conj Hw Hshow) |].
  exact (resetCallback_clears x_has_won Hw Hshow).
Defined.

(** C8. The callback leaves the current player and the score as they were,
    in every state: whoever holds the turn keeps it, and
    the score carries over to the next round.  The same holds when the timer
    runs the callback ([fire]). *)
Theorem resetCallback_keeps_player_and_score (s : TicTacToe) :
  (currentPlayer (exec resetCallback s) = currentPlayer s /\
   score (exec resetCallback s) = score s)
  /\ (currentPlayer (fire s) = currentPlayer s /\ score (fire s) = score s).
Proof.
  unfold fire, exec. split.
  - rewrite resetCallback_run. split; reflexivity.
  - destruct (timers s) as [| d rest]; [split; reflexivity |].
    rewrite resetCallback_run. split; reflexivity.
Qed.

(** ** Coordinates outside the board *)

Lemma JavaScript_clickCell_throws s row col :
  index (board s) row = None ->
  JavaScript.clickCell row col s = (Throw TypeError, s).
Proof.
  intros Hr. unfold JavaScript.clickCell.
  apply run_bind_throw, read_throws, Hr.
Qed.

Lemma index_row_outside b row :
  board_3x3 b -> ~ 0 <= row <= 2 -> index b row = None.
Proof.
  intros [Hlen _] Hrow. apply index_out_of_range. rewrite Hlen. lia.
Qed.

Lemma cell_col_outside b row col :
  board_3x3 b -> ~ 0 <= col <= 2 -> cell b row col = None.
Proof.
  intros [_ Hrows] Hcol. unfold cell.
  destruct (index b row) as [r |] eqn:Hr; [| reflexivity]. simpl.
  apply index_out_of_range.
  unfold index in Hr. case_decide; [| discriminate].
  eapply Forall_lookup_1 in Hrows; [| exact Hr]. simpl in Hrows.
  rewrite Hrows. lia.
Qed.

(** C6, as stated, fails: row 3 is outside 0..2 and the click raises. *)
Lemma clickCell_row_3_raises :
  clickCell 3 0 initial = (Throw TypeError, initial).
Proof. vm_compute. reflexivity. Qed.

(** C6, amended.  [clickCell] has no bounds check.  On a 3x3 board, a row
    outside 0..2 makes the call raise a [TypeError], in both variants, with
    the object unchanged; a row in 0..2 with a column outside 0..2 makes the
    TypeScript [clickCell] return with the object unchanged. *)
Theorem clickCell_outside_board (s : TicTacToe) (row col : Z) :
  board_3x3 (board s) ->
  (~ 0 <= row <= 2 ->
     clickCell row col s = (Throw TypeError, s) /\
     JavaScript.clickCell row col s = (Throw TypeError, s))
  /\ (0 <= row <= 2 -> ~ 0 <= col <= 2 ->
      clickCell row col s = (Return tt, s)).
Proof.
  intros Hb. split.
  - intros Hrow. pose proof (index_row_outside _ _ Hb Hrow) as Hr.
    split; [apply clickCell_throws | apply JavaScript_clickCell_throws]; exact Hr.
  - intros Hrow Hcol.
    destruct (index_row_3x3 _ row Hb Hrow) as (r & Hr & _).
    apply (clickCell_skips s row col r Hr).
    rewrite (cell_col_outside _ row col Hb Hcol). reflexivity.
Qed.

Lemma clickCell_outside_board_witness :
  board_3x3 (board initial) /\
  (~ 0 <= 3 <= 2 ->
     clickCell 3 0 initial = (Throw TypeError, initial) /\
     JavaScript.clickCell 3 0 initial = (Throw TypeError, initial))
  /\ (0 <= 1 <= 2 -> ~ 0 <= 7 <= 2 ->
      clickCell 1 7 initial = (Return tt, initial)).
Proof.
  assert (Hb : board_3x3 (board initial))
    by (vm_compute; split; [reflexivity | repeat constructor]).
  split; [exact Hb |]. split.
  - exact (proj1 (clickCell_outside_board initial 3 0 Hb)).
  - exact (proj2 (clickCell_outside_board initial 1 7 Hb)).
Defined.

(** ** Marks within a round *)

Lemma JavaScript_clickCell_run s row col :
  board_3x3 (board s) -> 0 <= row <= 2 ->
  JavaScript.clickCell row col s =
  let s1 :=
    if strict_eq (cell (board s) row col) blank && negb (waiting s)
    then marked row col s else s in
  settle (isGameWon_value (board s1) (currentPlayer s) row col)
    (stalemate_rows (board s1)) s1.
Proof.
  intros Hb Hrow.
  destruct (index_row_3x3 _ row Hb Hrow) as (r & Hr & _).
  unfold JavaScript.clickCell.
  rewrite (run_bind_return _ _ _ _ _ (read_cell s row col r Hr)).
  rewrite run_bind. simpl.
  destruct (strict_eq (cell (board s) row col) blank && negb (waiting s)).
  - rewrite run_bind. rewrite run_bind. simpl.
    rewrite (run_bind_return _ _ _ _ _ (write_run s row col _ r Hr)).
    simpl. fold (marked row col s).
    rewrite (run_bind_return _ _ _ _ _
               (isGameWon_run (marked row col s) row col
                  (mark_3x3 _ _ _ _ Hb) Hrow)).
    reflexivity.
  - rewrite run_bind. simpl.
    rewrite (run_bind_return _ _ _ _ _ (isGameWon_run s row col Hb Hrow)).
    reflexivity.
Qed.

Lemma guard_true s row col :
  strict_eq (cell (board s) row col) blank && negb (waiting s) = true ->
  cell (board s) row col = Some blank /\ waiting s = false.
Proof.
  intros [Hc Hw]%andb_true_iff. split.
  - destruct (cell (board s) row col) as [v |]; [| discriminate].
    simpl in Hc. apply String.eqb_eq in Hc. congruence.
  - destruct (waiting s); [discriminate | reflexivity].
Qed.

Lemma index_row_inside b row r :
  board_3x3 b -> index b row = Some r -> 0 <= row <= 2.
Proof.
  intros [Hlen _] Hr. apply index_in_range in Hr. rewrite Hlen in Hr. lia.
Qed.

(** A click leaves the board alone or marks one empty cell of it. *)
Lemma clickCell_board s row col :
  board_3x3 (board s) ->
  board (exec (clickCell row col) s) = board s
  \/ (cell (board s) row col = Some blank /\
      board (exec (clickCell row col) s)
      = mark (board s) row col (currentPlayer s)).
Proof.
  intros Hb. unfold exec.
  destruct (index (board s) row) as [r |] eqn:Hr.
  - destruct (strict_eq (cell (board s) row col) blank && negb (waiting s)) eqn:Hg.
    + right. apply guard_true in Hg as [Hcell Hw]. split; [exact Hcell |].
      rewrite clickCell_marks;
        [| exact Hb | eapply index_row_inside; eassumption | exact Hcell | exact Hw].
      cbv zeta. simpl.
      destruct (isGameWon_value _ _ _ _); [reflexivity |].
      destruct (no_empty _); reflexivity.
    + left. rewrite (clickCell_skips s row col r Hr Hg). reflexivity.
  - left. rewrite clickCell_throws by exact Hr. reflexivity.
Qed.

Lemma JavaScript_clickCell_board s row col :
  board_3x3 (board s) ->
  board (exec (JavaScript.clickCell row col) s) = board s
  \/ (cell (board s) row col = Some blank /\
      board (exec (JavaScript.clickCell row col) s)
      = mark (board s) row col (currentPlayer s)).
Proof.
  intros Hb. unfold exec.
  destruct (index (board s) row) as [r |] eqn:Hr.
  - rewrite JavaScript_clickCell_run;
      [| exact Hb | eapply index_row_inside; eassumption].
    cbv zeta.
    destruct (strict_eq (cell (board s) row col) blank && negb (waiting s)) eqn:Hg.
    + right. apply guard_true in Hg as [Hcell _]. split; [exact Hcell |].
      apply (settle_board _ _ (marked row col s)).
    + left. apply settle_board.
  - left. rewrite JavaScript_clickCell_throws by exact Hr. reflexivity.
Qed.

Lemma mark_keeps_marks b row col p i j v :
  cell b row col = Some blank ->
  cell b i j = Some v -> v <> blank -> cell (mark b row col p) i j = Some v.
Proof.
  intros Hempty Hv Hne. rewrite cell_mark_ne; [exact Hv |].
  intros [= -> ->]. congruence.
Qed.

Section Round.

(** A click handler that leaves the board alone or marks an empty cell. *)
Variable click : Z -> Z -> M unit.
Hypothesis click_board :
  forall s row col,
    board_3x3 (board s) ->
    board (exec (click row col) s) = board s
    \/ (cell (board s) row col = Some blank /\
        board (exec (click row col) s)
        = mark (board s) row col (currentPlayer s)).

Lemma step_with_3x3 s e :
  board_3x3 (board s) -> board_3x3 (board (step_with click s e)).
Proof.
  intros Hb. destruct e as [row col |]; simpl.
  - destruct (click_board s row col Hb) as [-> | [_ ->]];
      [exact Hb | apply mark_3x3, Hb].
  - unfold fire. destruct (timers s); [exact Hb |].
    unfold exec. rewrite resetCallback_run. exact createBoard_3x3.
Qed.

Lemma run_with_3x3 es s :
  board_3x3 (board s) -> board_3x3 (board (run_with click es s)).
Proof.
  revert s. induction es as [| e es IH]; intros s Hb; [exact Hb |].
  simpl. apply IH, step_with_3x3, Hb.
Qed.

Lemma run_with_keeps_marks es s i j v :
  board_3x3 (board s) -> within_round es ->
  cell (board s) i j = Some v -> v <> blank ->
  cell (board (run_with click es s)) i j = Some v.
Proof.
  revert s. induction es as [| e es IH]; intros s Hb Hes Hv Hne; [exact Hv |].
  apply Forall_cons in Hes as [He Hes]. simpl.
  apply IH; [apply step_with_3x3, Hb | exact Hes | | exact Hne].
  destruct e as [row col |]; [| congruence]. simpl.
  destruct (click_board s row col Hb) as [-> | [Hempty ->]]; [exact Hv |].
  apply mark_keeps_marks; assumption.
Qed.

End Round.

(** C9. Starting from a 3x3 board, the board is 3x3 after any sequence of
    clicks and reset firings; and after any sequence of clicks with no reset
    firing in between, every cell that held a mark still holds that same
    mark: a click never changes a mark and never empties a cell.  This holds
    of both variants of [clickCell]. *)
Theorem board_keeps_shape_and_marks (s : TicTacToe) :
  board_3x3 (board s) ->
  (forall es,
     board_3x3 (board (run es s)) /\
     board_3x3 (board (run_with JavaScript.clickCell es s)))
  /\ (forall es i j v,
       within_round es -> cell (board s) i j = Some v -> v <> blank ->
       cell (board (run es s)) i j = Some v /\
       cell (board (run_with JavaScript.clickCell es s)) i j = Some v).
Proof.
  intros Hb. split.
  - intros es. split.
    + apply run_with_3x3; [exact clickCell_board | exact Hb].
    + apply run_with_3x3; [exact JavaScript_clickCell_board | exact Hb].
  - intros es i j v Hes Hv Hne. split.
    + apply run_with_keeps_marks; try assumption. exact clickCell_board.
    + apply run_with_keeps_marks; try assumption.
      exact JavaScript_clickCell_board.
Qed.

Lemma board_keeps_shape_and_marks_witness :
  let s := x_to_win in
  let es := [Click 0 0; Click 1 1; Click 0 2; Click 5 5] in
  (board_3x3 (board s) /\ within_round es /\
   cell (board s) 0 0 = Some "x" /\ "x" <> blank)
  /\ board_3x3 (board (run es s))
  /\ cell (board (run es s)) 0 0 = Some "x"
  /\ cell (board (run_with JavaScript.clickCell es s)) 0 0 = Some "x".
Proof.
  intros s es.
  assert (Hb : board_3x3 (board s))
    by (vm_compute; split; [reflexivity | repeat constructor]).
  assert (Hes : within_round es) by (repeat constructor; discriminate).
  assert (Hv : cell (board s) 0 0 = Some "x") by (vm_compute; reflexivity).
  assert (Hne : "x" <> blank) by discriminate.
  split; [exact (conj Hb (conj Hes (conj Hv Hne))) |].
  destruct (board_keeps_shape_and_marks s Hb) as [Hshape Hmarks].
  split; [exact (proj1 (Hshape es)) |].
  exact (Hmarks es 0 0 "x" Hes Hv Hne).
Defined.

(** ** Alternation of the marks *)

Lemma tally_insert {A : Type} (f : A -> nat) (l : list A) (i : nat) (x y : A) :
  l !! i = Some x -> (tally f (<[i:=y]> l) + f x = tally f l + f y)%nat.
Proof.
  revert i. induction l as [| a l IH]; intros [| i] Hi; simpl in *;
    try discriminate.
  - injection Hi as ->. lia.
  - specialize (IH i Hi). lia.
Qed.

(** Setting a cell changes the count of [q] by what left and what came. *)
Lemma count_marks_mark b row col v old q :
  cell b row col = Some old ->
  (count_marks (mark b row col v) q + (if String.eqb old q then 1 else 0)
   = count_marks b q + (if String.eqb v q then 1 else 0))%nat.
Proof.
  unfold cell, mark, count_marks.
  destruct (index b row) as [r |] eqn:Hr; [| discriminate]. simpl. intros Hc.
  pose proof (index_in_range _ _ _ Hr) as Hrow.
  pose proof (index_in_range _ _ _ Hc) as Hcol.
  unfold index in Hr, Hc.
  rewrite decide_True in Hr by lia. rewrite decide_True in Hc by lia.
  unfold assign. rewrite (decide_True (P := 0 <= col < _)) by exact Hcol.
  rewrite decide_True by exact Hrow.
  set (g := fun c : string => if String.eqb c q then 1%nat else 0%nat).
  pose proof (tally_insert (tally g) b (Z.to_nat row) r
                (<[Z.to_nat col := v]> r) Hr) as Hb.
  pose proof (tally_insert g r (Z.to_nat col) old v Hc) as Hrw.
  fold (g old) (g v). lia.
Qed.

Lemma opponent_x : opponent players.x = players.o.
Proof. reflexivity. Qed.

Lemma opponent_o : opponent players.o = players.x.
Proof. reflexivity. Qed.

(** The mark of a player on an empty cell adds one to the player's marks
    and none to the opponent's. *)
Lemma count_after_mark b row col p :
  p = players.x \/ p = players.o ->
  cell b row col = Some blank ->
  count_marks (mark b row col p) p = S (count_marks b p)
  /\ count_marks (mark b row col p) (opponent p) = count_marks b (opponent p).
Proof.
  intros Hp Hcell.
  pose proof (count_marks_mark b row col p blank p Hcell) as Hown.
  pose proof (count_marks_mark b row col p blank (opponent p) Hcell) as Hopp.
  rewrite String.eqb_refl in Hown.
  destruct Hp as [-> | ->]; cbn in Hown, Hopp;
    rewrite ?opponent_x, ?opponent_o; split; lia.
Qed.

(** A mark that completes no line leaves both players without a line. *)
Lemma lines_after_mark b row col p :
  board_3x3 b -> 0 <= row <= 2 -> 0 <= col <= 2 ->
  p = players.x \/ p = players.o ->
  cell b row col = Some blank ->
  has_line b players.x = false -> has_line b players.o = false ->
  completes_line (mark b row col p) p row col = false ->
  has_line (mark b row col p) players.x = false
  /\ has_line (mark b row col p) players.o = false.
Proof.
  intros Hb Hrow Hcol Hp Hcell Hx Ho Hc.
  assert (Hown : has_line (mark b row col p) p = false).
  { destruct (has_line (mark b row col p) p) eqn:Hl; [| reflexivity].
    apply new_line_through in Hl; try assumption; [congruence |].
    destruct Hp as [-> | ->]; assumption. }
  destruct Hp as [-> | ->]; split; try exact Hown.
  - rewrite (has_line_mark_other b _ _ row col blank Hb Hrow Hcol Hcell);
      [exact Ho | reflexivity | reflexivity].
  - rewrite (has_line_mark_other b _ _ row col blank Hb Hrow Hcol Hcell);
      [exact Hx | reflexivity | reflexivity].
Qed.

Lemma cell_inside b row col v :
  board_3x3 b -> cell b row col = Some v -> 0 <= row <= 2 /\ 0 <= col <= 2.
Proof.
  intros Hb Hc. unfold cell in Hc.
  destruct (index b row) as [r |] eqn:Hr; [| discriminate]. simpl in Hc.
  split; [eapply index_row_inside; eassumption |].
  apply index_in_range in Hc.
  destruct Hb as [_ Hrows]. unfold index in Hr. case_decide; [| discriminate].
  eapply Forall_lookup_1 in Hrows; [| exact Hr]. simpl in Hrows. lia.
Qed.

Lemma invariant_initial : invariant initial.
Proof.
  constructor.
  - exact createBoard_3x3.
  - left. reflexivity.
  - vm_compute. split; [split; lia | intros _; lia].
  - intros _. split; vm_compute; reflexivity.
  - exists 0, 0. split; [vm_compute; reflexivity |].
    split; [vm_compute; reflexivity | lia].
Qed.

Lemma invariant_fire s : invariant s -> invariant (fire s).
Proof.
  intros Hinv. unfold fire. destruct (timers s) as [| d rest]; [exact Hinv |].
  unfold exec. rewrite resetCallback_run.
  destruct Hinv as [Hb Hp Hturn Hlines Hscore].
  constructor; simpl.
  - exact createBoard_3x3.
  - exact Hp.
  - destruct Hp as [-> | ->]; vm_compute; (split; [split; lia | intros _; lia]).
  - intros _. split; vm_compute; reflexivity.
  - exact Hscore.
Qed.

(** The three outcomes of a mark keep the invariant. *)
Lemma invariant_marks s row col :
  invariant s -> waiting s = false -> cell (board s) row col = Some blank ->
  invariant (exec (clickCell row col) s).
Proof.
  intros [Hb Hp Hturn Hlines Hscore] Hw Hcell.
  destruct (cell_inside _ _ _ _ Hb Hcell) as [Hrow Hcol].
  destruct (Hlines Hw) as [Hx Ho].
  destruct Hturn as [[Hcd Hdc] Hact]. specialize (Hact Hw).
  assert (Hnone : has_line (board s) (currentPlayer s) = false)
    by (destruct Hp as [Hp | Hp]; rewrite Hp; assumption).
  destruct (count_after_mark (board s) row col (currentPlayer s) Hp Hcell)
    as [Hown Hopp].
  pose proof (mark_3x3 (board s) row col (currentPlayer s) Hb) as Hb'.
  unfold exec. rewrite clickCell_marks by assumption.
  cbv zeta. change (board (marked row col s))
    with (mark (board s) row col (currentPlayer s)).
  rewrite isGameWon_value_completes by assumption.
  destruct (completes_line _ _ row col) eqn:Hc; simpl.
  - (* won *)
    constructor; simpl.
    + exact Hb'.
    + exact Hp.
    + rewrite Hown, Hopp. split; [lia | discriminate].
    + discriminate.
    + destruct Hscore as (n & m & Hn & Hm & Hn0 & Hm0).
      destruct Hp as [Hp | Hp]; rewrite Hp.
      * exists (n + 1), m. rewrite lookup_insert_eq, Hn.
        rewrite lookup_insert_ne by discriminate.
        repeat split; try assumption; try reflexivity; lia.
      * exists n, (m + 1). rewrite lookup_insert_eq, Hm.
        rewrite lookup_insert_ne by discriminate.
        repeat split; try assumption; try reflexivity; lia.
  - destruct (no_empty _) eqn:He.
    + (* drawn *)
      constructor; simpl.
      * exact Hb'.
      * exact Hp.
      * rewrite Hown, Hopp. split; [lia | discriminate].
      * discriminate.
      * exact Hscore.
    + (* switched *)
      constructor; simpl.
      * exact Hb'.
      * destruct Hp as [Hp | Hp]; rewrite Hp; [right | left]; reflexivity.
      * assert (Hback : opponent (opponent (currentPlayer s)) = currentPlayer s)
          by (destruct Hp as [Hp | Hp]; rewrite Hp; reflexivity).
        rewrite Hback, Hown, Hopp. split; [lia | intros _; lia].
      * intros _. apply lines_after_mark; assumption.
      * exact Hscore.
Qed.

Lemma invariant_clickCell s row col :
  invariant s -> invariant (exec (clickCell row col) s).
Proof.
  intros Hinv.
  destruct (index (board s) row) as [r |] eqn:Hr.
  - destruct (strict_eq (cell (board s) row col) blank && negb (waiting s)) eqn:Hg.
    + apply guard_true in Hg as [Hcell Hw]. apply invariant_marks; assumption.
    + unfold exec. rewrite (clickCell_skips s row col r Hr Hg). exact Hinv.
  - unfold exec. rewrite clickCell_throws by exact Hr. exact Hinv.
Qed.

Lemma invariant_step s e : invariant s -> invariant (step s e).
Proof.
  intros Hinv. destruct e as [row col |]; simpl.
  - apply invariant_clickCell, Hinv.
  - apply invariant_fire, Hinv.
Qed.

Lemma invariant_run es s : invariant s -> invariant (run es s).
Proof.
  revert s. induction es as [| e es IH]; intros s Hinv; [exact Hinv |].
  apply (IH (step s e)), invariant_step, Hinv.
Qed.

(** In every active state of a session, the player to move has no line. *)
Lemma active_player_has_no_line es :
  let s := run es initial in
  waiting s = false -> has_line (board s) (currentPlayer s) = false.
Proof.
  intros s Hw.
  destruct (invariant_run es initial invariant_initial) as [_ Hp _ Hlines _].
  destruct (Hlines Hw) as [Hx Ho].
  destruct Hp as [Hp | Hp]; fold s in Hp; rewrite Hp; assumption.
Qed.

(** C10. After any sequence of clicks and firings of the deferred reset from
    the initial state, the number of cells marked x and the number of cells
    marked o differ by at most one. *)
Theorem marks_alternate (es : list event) :
  let b := board (run es initial) in
  (count_marks b "x" <= count_marks b "o" + 1)%nat
  /\ (count_marks b "o" <= count_marks b "x" + 1)%nat.
Proof.
  intros b.
  destruct (invariant_run es initial invariant_initial)
    as [_ Hp [[Hcd Hdc] _] _ _].
  fold b in Hcd, Hdc.
  destruct Hp as [Hp | Hp]; rewrite Hp in Hcd, Hdc;
    rewrite ?opponent_x, ?opponent_o in Hcd, Hdc; split; assumption.
Qed.

(** * Further properties of the model *)

(** ** The methods one by one *)

(** X1. [switchPlayer] changes nothing but the current player, which
    becomes o when it was x and x in every other case; from x or o, two
    calls give the object back. *)
Theorem switchPlayer_alternates (s : TicTacToe) :
  switchPlayer s = (Return tt, set_currentPlayer (opponent (currentPlayer s)) s)
  /\ (currentPlayer (exec switchPlayer s) = players.x \/
      currentPlayer (exec switchPlayer s) = players.o)
  /\ (currentPlayer s = players.x \/ currentPlayer s = players.o ->
      currentPlayer (exec switchPlayer s) <> currentPlayer s /\
      exec switchPlayer (exec switchPlayer s) = s).
Proof.
  split; [reflexivity |]. unfold exec, switchPlayer, modify. simpl. split.
  - destruct (String.eqb (currentPlayer s) players.x); [right | left]; reflexivity.
  - destruct s as [b w sc p d t]. simpl. intros [-> | ->]; simpl;
      (split; [discriminate | reflexivity]).
Qed.

Lemma switchPlayer_alternates_witness :
  (currentPlayer x_to_win = players.x \/ currentPlayer x_to_win = players.o)
  /\ currentPlayer (exec switchPlayer x_to_win) <> currentPlayer x_to_win
  /\ exec switchPlayer (exec switchPlayer x_to_win) = x_to_win.
Proof.
  assert (Hp : currentPlayer x_to_win = players.x \/
               currentPlayer x_to_win = players.o)
    by (left; vm_compute; reflexivity).
  split; [exact Hp |].
  exact (proj2 (proj2 (switchPlayer_alternates x_to_win)) Hp).
Defined.

(** X2. The test [stalemate.length < 1] of [clickCell] holds exactly when
    no cell of the board is [''], whatever the shape of the board. *)
Theorem stalemate_iff_no_empty_cell (b : list (list string)) :
  (length (stalemate_rows b) <? 1)%nat = true <->
  (forall r c, In r b -> In c r -> c <> blank).
Proof.
  rewrite stalemate_no_empty. unfold no_empty. rewrite forallb_forall. split.
  - intros H r c Hr Hc. specialize (H r Hr).
    rewrite forallb_forall in H. specialize (H c Hc).
    intros ->. discriminate H.
  - intros H r Hr. apply forallb_forall. intros c Hc.
    destruct (String.eqb_spec c blank) as [-> | Hne]; [| reflexivity].
    exfalso. exact (H r blank Hr Hc eq_refl).
Qed.

(** X3. [isGameWon] never changes the object, in any state and for any
    coordinates; on a 3x3 board it raises exactly when the row is outside
    0..2 (a column outside the board compares [undefined] and raises
    nothing). *)
Theorem isGameWon_reads_only (s : TicTacToe) (row col : Z) :
  exec (isGameWon row col) s = s
  /\ (board_3x3 (board s) ->
      (fst (isGameWon row col s) = Throw TypeError <-> ~ 0 <= row <= 2)).
Proof.
  split; [apply readonly_isGameWon |].
  intros Hb. destruct (decide (0 <= row <= 2)) as [Hrow | Hrow].
  - rewrite isGameWon_run by assumption. simpl. split; [discriminate | tauto].
  - split; [intros _; exact Hrow | intros _].
    pose proof (index_row_outside _ _ Hb Hrow) as Hr.
    unfold isGameWon, orM, andM, cell_is_current.
    repeat (rewrite run_bind). rewrite (read_throws s row 0 Hr). reflexivity.
Qed.

Lemma isGameWon_reads_only_witness :
  board_3x3 (board initial)
  /\ (fst (isGameWon 3 7 initial) = Throw TypeError <-> ~ 0 <= 3 <= 2).
Proof.
  assert (Hb : board_3x3 (board initial))
    by (vm_compute; split; [reflexivity | repeat constructor]).
  split; [exact Hb |]. exact (proj2 (isGameWon_reads_only initial 3 7) Hb).
Defined.

(** ** Clicks inside the board *)

Lemma settle_returns win stalemate s :
  fst (settle win stalemate s) = Return tt.
Proof.
  destruct (waiting s) eqn:Hw.
  - rewrite settle_waiting by exact Hw. reflexivity.
  - rewrite settle_run by exact Hw. reflexivity.
Qed.

Lemma clickCell_returns s row col :
  board_3x3 (board s) -> 0 <= row <= 2 -> 0 <= col <= 2 ->
  fst (clickCell row col s) = Return tt.
Proof.
  intros Hb Hrow Hcol.
  destruct (index_row_3x3 _ row Hb Hrow) as (r & Hr & _).
  destruct (strict_eq (cell (board s) row col) blank && negb (waiting s)) eqn:Hg.
  - apply guard_true in Hg as [Hcell Hw].
    rewrite clickCell_marks by assumption. reflexivity.
  - rewrite (clickCell_skips s row col r Hr Hg). reflexivity.
Qed.

Lemma clickCell_replays s row col :
  board_3x3 (board s) -> 0 <= row <= 2 -> 0 <= col <= 2 ->
  currentPlayer s = players.x \/ currentPlayer s = players.o ->
  screen_shows s ->
  exists scr, replay (display (exec (clickCell row col) s)) page = Some scr.
Proof.
  intros Hb Hrow Hcol Hp Hshow.
  destruct (index_row_3x3 _ row Hb Hrow) as (r & Hr & _).
  destruct (strict_eq (cell (board s) row col) blank && negb (waiting s)) eqn:Hg.
  - apply guard_true in Hg as [Hcell Hw].
    destruct (screen_shows_marked s row col Hb Hrow Hcol Hp Hshow Hw Hcell)
      as (scr & Hrep & _).
    exists scr. exact Hrep.
  - unfold exec. rewrite (clickCell_skips s row col r Hr Hg).
    destruct Hshow as (scr & Hrep & _). exists scr. exact Hrep.
Qed.

Lemma JavaScript_clickCell_replays s row col :
  board_3x3 (board s) -> 0 <= row <= 2 -> 0 <= col <= 2 ->
  currentPlayer s = players.x \/ currentPlayer s = players.o ->
  screen_shows s ->
  exists scr,
    replay (display (exec (JavaScript.clickCell row col) s)) page = Some scr.
Proof.
  intros Hb Hrow Hcol Hp Hshow. unfold exec.
  rewrite JavaScript_clickCell_run by assumption. cbv zeta.
  destruct (strict_eq (cell (board s) row col) blank && negb (waiting s)) eqn:Hg.
  - apply guard_true in Hg as [Hcell Hw].
    destruct (screen_shows_marked s row col Hb Hrow Hcol Hp Hshow Hw Hcell)
      as (scr & Hrep & _).
    unfold exec in Hrep. rewrite clickCell_marks in Hrep by assumption.
    rewrite settle_run by exact Hw. rewrite stalemate_no_empty.
    exists scr. exact Hrep.
  - apply (settle_replays _ _ s); assumption.
Qed.

(** X4. On a 3x3 board with the player to move x or o and the page showing
    the state, a click with both coordinates in 0..2 never raises, in any
    phase and whatever the cell holds: [clickCell] returns and every call it
    makes on the display finds its elements.  This holds of both variants of
    [clickCell]. *)
Theorem clickCell_inside_returns (s : TicTacToe) (row col : Z) :
  board_3x3 (board s) -> 0 <= row <= 2 -> 0 <= col <= 2 ->
  currentPlayer s = players.x \/ currentPlayer s = players.o ->
  screen_shows s ->
  (fst (clickCell row col s) = Return tt /\
   exists scr, replay (display (exec (clickCell row col) s)) page = Some scr)
  /\ (fst (JavaScript.clickCell row col s) = Return tt /\
      exists scr,
        replay (display (exec (JavaScript.clickCell row col) s)) page = Some scr).
Proof.
  intros Hb Hrow Hcol Hp Hshow. split; split.
  - apply clickCell_returns; assumption.
  - apply clickCell_replays; assumption.
  - rewrite JavaScript_clickCell_run by assumption. apply settle_returns.
  - apply JavaScript_clickCell_replays; assumption.
Qed.

Lemma clickCell_inside_returns_witness :
  let s := x_has_won in
  (board_3x3 (board s) /\ 0 <= 1 <= 2 /\ 0 <= 2 <= 2 /\
   (currentPlayer s = players.x \/ currentPlayer s = players.o) /\
   screen_shows s)
  /\ (fst (clickCell 1 2 s) = Return tt /\
      exists scr, replay (display (exec (clickCell 1 2) s)) page = Some scr)
  /\ (fst (JavaScript.clickCell 1 2 s) = Return tt /\
      exists scr,
        replay (display (exec (JavaScript.clickCell 1 2) s)) page = Some scr).
Proof.
  intros s.
  assert (Hb : board_3x3 (board s))
    by (vm_compute; split; [reflexivity | repeat constructor]).
  assert (Hrow : 0 <= 1 <= 2) by lia.
  assert (Hcol : 0 <= 2 <= 2) by lia.
  assert (Hp : currentPlayer s = players.x \/ currentPlayer s = players.o)
    by (left; vm_compute; reflexivity).
  assert (Hshow : screen_shows s) by screen_by_evaluation.
  split; [exact (conj Hb (conj Hrow (conj Hcol (conj Hp Hshow)))) |].
  exact (clickCell_inside_returns s 1 2 Hb Hrow Hcol Hp Hshow).
Defined.

(** X5. In an active round in which the player to move [p], x or o, has no
    line, and with the page showing the state, a click on an empty cell whose
    mark completes no line and leaves another cell empty continues the round:
    the cell holds [p], the turn passes to the opponent, the round stays
    active, the score is unchanged, no reset is scheduled, the display is
    asked only to show the mark, and the page shows the new state. *)
Theorem clickCell_continues (s : TicTacToe) (row col : Z) :
  board_3x3 (board s) -> 0 <= row <= 2 -> 0 <= col <= 2 ->
  waiting s = false -> cell (board s) row col = Some blank ->
  has_line (board s) (currentPlayer s) = false ->
  currentPlayer s = players.x \/ currentPlayer s = players.o ->
  screen_shows s ->
  let p := currentPlayer s in
  let b' := mark (board s) row col p in
  completes_line b' p row col = false -> no_empty b' = false ->
  exists s',
    clickCell row col s = (Return tt, s') /\ screen_shows s' /\
    board s' = b' /\ cell b' row col = Some p /\
    currentPlayer s' = opponent p /\ waiting s' = false /\
    score s' = score s /\ timers s' = timers s /\
    display s' = (display s ++ [updateBoard row col p])%list.
Proof.
  intros Hb Hrow Hcol Hw Hcell Hnone Hp Hshow p b' Hc He.
  pose proof (screen_shows_marked s row col Hb Hrow Hcol Hp Hshow Hw Hcell)
    as Hshow'.
  unfold exec in Hshow'. rewrite clickCell_marks in Hshow' by assumption.
  eexists. split; [apply clickCell_marks; assumption |].
  split; [exact Hshow' |]. clear Hshow'.
  cbv zeta. change (board (marked row col s)) with b'.
  unfold b', p in *. rewrite isGameWon_value_completes by assumption.
  rewrite Hc, He. simpl.
  split; [reflexivity |]. split; [eapply cell_mark_eq, Hcell |].
  split; [reflexivity |]. split; [exact Hw |]. repeat split; reflexivity.
Qed.

Lemma clickCell_continues_witness :
  let s := x_to_win in
  let p := currentPlayer s in
  let b' := mark (board s) 1 0 p in
  (board_3x3 (board s) /\ 0 <= 1 <= 2 /\ 0 <= 0 <= 2 /\ waiting s = false /\
   cell (board s) 1 0 = Some blank /\ has_line (board s) p = false /\
   (currentPlayer s = players.x \/ currentPlayer s = players.o) /\
   screen_shows s /\
   completes_line b' p 1 0 = false /\ no_empty b' = false)
  /\ exists s',
    clickCell 1 0 s = (Return tt, s') /\ screen_shows s' /\
    board s' = b' /\ cell b' 1 0 = Some p /\
    currentPlayer s' = opponent p /\ waiting s' = false /\
    score s' = score s /\ timers s' = timers s /\
    display s' = (display s ++ [updateBoard 1 0 p])%list.
Proof.
  intros s p b'.
  assert (Hb : board_3x3 (board s))
    by (vm_compute; split; [reflexivity | repeat constructor]).
  assert (Hrow : 0 <= 1 <= 2) by lia.
  assert (Hcol : 0 <= 0 <= 2) by lia.
  assert (Hw : waiting s = false) by (vm_compute; reflexivity).
  assert (Hcell : cell (board s) 1 0 = Some blank) by (vm_compute; reflexivity).
  assert (Hnone : has_line (board s) p = false) by (vm_compute; reflexivity).
  assert (Hp : currentPlayer s = players.x \/ currentPlayer s = players.o)
    by (left; vm_compute; reflexivity).
  assert (Hshow : screen_shows s) by screen_by_evaluation.
  assert (Hc : completes_line b' p 1 0 = false) by (vm_compute; reflexivity).
  assert (He : no_empty b' = false) by (vm_compute; reflexivity).
  split;
    [exact (conj Hb (conj Hrow (conj Hcol (conj Hw (conj Hcell
              (conj Hnone (conj Hp (conj Hshow (conj Hc He))))))))) |].
  exact (clickCell_continues s 1 0 Hb Hrow Hcol Hw Hcell Hnone Hp Hshow Hc He).
Defined.

(** ** The two variants of [clickCell] *)

(** X6. On a 3x3 board the JavaScript [clickCell] does exactly what the
    TypeScript one does whenever the model awaits the reset, the row is
    outside the board, or the cell is empty: the two differ only on clicks
    at a cell that is not empty while the round is active. *)
Theorem variants_agree (s : TicTacToe) (row col : Z) :
  board_3x3 (board s) ->
  waiting s = true \/ ~ 0 <= row <= 2 \/ cell (board s) row col = Some blank ->
  JavaScript.clickCell row col s = clickCell row col s.
Proof.
  intros Hb Hcase.
  destruct (decide (0 <= row <= 2)) as [Hrow | Hrow].
  - destruct (index_row_3x3 _ row Hb Hrow) as (r & Hr & _).
    rewrite JavaScript_clickCell_run by assumption. cbv zeta.
    destruct (strict_eq (cell (board s) row col) blank && negb (waiting s)) eqn:Hg.
    + apply guard_true in Hg as [Hcell Hw].
      rewrite clickCell_marks by assumption.
      rewrite settle_run by exact Hw. rewrite stalemate_no_empty. reflexivity.
    + rewrite (clickCell_skips s row col r Hr Hg).
      destruct (waiting s) eqn:Hw; [apply settle_waiting, Hw |].
      destruct Hcase as [Hcase | [Hcase | Hcase]];
        [discriminate | contradiction |].
      rewrite Hcase in Hg. discriminate Hg.
  - pose proof (index_row_outside _ _ Hb Hrow) as Hr.
    rewrite clickCell_throws, JavaScript_clickCell_throws by exact Hr.
    reflexivity.
Qed.

Lemma variants_agree_witness :
  (board_3x3 (board x_to_win) /\
   (waiting x_to_win = true \/ ~ 0 <= 0 <= 2 \/
    cell (board x_to_win) 0 2 = Some blank))
  /\ JavaScript.clickCell 0 2 x_to_win = clickCell 0 2 x_to_win.
Proof.
  assert (Hb : board_3x3 (board x_to_win))
    by (vm_compute; split; [reflexivity | repeat constructor]).
  assert (Hcase : waiting x_to_win = true \/ ~ 0 <= 0 <= 2 \/
                  cell (board x_to_win) 0 2 = Some blank)
    by (right; right; vm_compute; reflexivity).
  split; [exact (conj Hb Hcase) |].
  exact (variants_agree x_to_win 0 2 Hb Hcase).
Defined.

(** X7. In the JavaScript variant, a click on an occupied cell of an active
    round in which the player to move has no line and some cell is empty
    marks nothing and passes the turn to the opponent; nothing else of the
    object changes. *)
Theorem JavaScript_clickCell_occupied_passes_turn (s : TicTacToe) (row col : Z) :
  board_3x3 (board s) -> 0 <= row <= 2 -> 0 <= col <= 2 ->
  waiting s = false -> cell (board s) row col <> Some blank ->
  has_line (board s) (currentPlayer s) = false ->
  no_empty (board s) = false ->
  JavaScript.clickCell row col s = (Return tt, switched s).
Proof.
  intros Hb Hrow Hcol Hw Hcell Hnone He.
  rewrite JavaScript_clickCell_run by assumption. cbv zeta.
  assert (Hg : strict_eq (cell (board s) row col) blank && negb (waiting s) = false).
  { destruct (cell (board s) row col) as [v |] eqn:Hv; [| reflexivity].
    simpl. destruct (String.eqb_spec v blank); [congruence | reflexivity]. }
  rewrite Hg, settle_run by exact Hw. rewrite stalemate_no_empty, He.
  destruct (isGameWon_value (board s) (currentPlayer s) row col) eqn:Hwon;
    [| reflexivity].
  apply isGameWon_value_line in Hwon; try assumption. congruence.
Qed.

Lemma JavaScript_clickCell_occupied_passes_turn_witness :
  let s := x_to_win in
  (board_3x3 (board s) /\ 0 <= 1 <= 2 /\ waiting s = false /\
   cell (board s) 1 1 <> Some blank /\
   has_line (board s) (currentPlayer s) = false /\ no_empty (board s) = false)
  /\ JavaScript.clickCell 1 1 s = (Return tt, switched s).
Proof.
  intros s.
  assert (Hb : board_3x3 (board s))
    by (vm_compute; split; [reflexivity | repeat constructor]).
  assert (Hr : 0 <= 1 <= 2) by lia.
  assert (Hw : waiting s = false) by (vm_compute; reflexivity).
  assert (Hcell : cell (board s) 1 1 <> Some blank) by (vm_compute; discriminate).
  assert (Hnone : has_line (board s) (currentPlayer s) = false)
    by (vm_compute; reflexivity).
  assert (He : no_empty (board s) = false) by (vm_compute; reflexivity).
  split; [exact (conj Hb (conj Hr (conj Hw (conj Hcell (conj Hnone He))))) |].
  exact (JavaScript_clickCell_occupied_passes_turn s 1 1 Hb Hr Hr Hw Hcell Hnone He).
Defined.

(** ** Sessions *)

Lemma tally_snoc {A : Type} (f : A -> nat) (l : list A) (a : A) :
  tally f (l ++ [a]) = (tally f l + f a)%nat.
Proof. induction l as [| b l IH]; simpl; [lia | rewrite IH; lia]. Qed.

Lemma wins_announced_snoc q log c :
  wins_announced q (log ++ [c])
  = (wins_announced q log + (if is_win_message q c then 1 else 0))%nat.
Proof. apply tally_snoc. Qed.

Lemma cell_value_player p :
  p = players.x \/ p = players.o -> cell_value p.
Proof. intros [-> | ->]; [right; left | right; right]; reflexivity. Qed.

Lemma mark_cells b row col p :
  Forall (Forall cell_value) b -> cell_value p ->
  Forall (Forall cell_value) (mark b row col p).
Proof.
  intros Hb Hp. unfold mark.
  destruct (index b row) as [r |] eqn:Hr; [| exact Hb].
  unfold assign at 1. case_decide; [| exact Hb].
  apply Forall_insert; [exact Hb |].
  assert (Hrv : Forall cell_value r).
  { unfold index in Hr. case_decide; [| discriminate].
    eapply Forall_lookup_1 in Hb; [exact Hb | exact Hr]. }
  unfold assign. case_decide; [| exact Hrv].
  apply Forall_insert; assumption.
Qed.

Lemma createBoard_cells : Forall (Forall cell_value) createBoard.
Proof. repeat constructor. Qed.

Lemma session_invariant_initial : session_invariant initial.
Proof.
  constructor.
  - exact invariant_initial.
  - exact createBoard_cells.
  - reflexivity.
  - intros _. reflexivity.
  - intros Hw. discriminate Hw.
  - split; vm_compute; reflexivity.
Qed.

Lemma session_invariant_fire s : session_invariant s -> session_invariant (fire s).
Proof.
  intros Hses. pose proof (invariant_fire s (ses_invariant s Hses)) as Hinv'.
  destruct Hses as [Hinv Hcells Htimers Hopen Hout Hscore].
  unfold fire in *. destruct (timers s) as [| d rest] eqn:Ht.
  - constructor; try assumption. rewrite Ht. exact Htimers.
  - unfold exec in *. rewrite resetCallback_run in *.
    assert (Hrest : rest = []).
    { destruct (waiting s); [| discriminate]. injection Htimers as _ ->. reflexivity. }
    subst rest. simpl in Hinv'.
    constructor; simpl.
    + exact Hinv'.
    + exact createBoard_cells.
    + reflexivity.
    + intros _. reflexivity.
    + discriminate.
    + change (display s ++ [clearMessage; clearGameBoard])%list
        with (display s ++ [clearMessage] ++ [clearGameBoard])%list.
      rewrite app_assoc, !wins_announced_snoc. simpl.
      rewrite !Nat.add_0_r. exact Hscore.
Qed.

Lemma session_invariant_marks s row col :
  session_invariant s -> waiting s = false ->
  cell (board s) row col = Some blank ->
  session_invariant (exec (clickCell row col) s).
Proof.
  intros Hses Hw Hcell.
  pose proof (invariant_marks s row col (ses_invariant s Hses) Hw Hcell) as Hinv'.
  destruct Hses as [[Hb Hp Hturn Hlines Hsc0] Hcells Htimers Hopen Hout Hscore].
  destruct (cell_inside _ _ _ _ Hb Hcell) as [Hrow Hcol].
  destruct (Hlines Hw) as [Hx Ho].
  assert (Hnone : has_line (board s) (currentPlayer s) = false)
    by (destruct Hp as [Hp | Hp]; rewrite Hp; assumption).
  assert (Hother : has_line (board s) (opponent (currentPlayer s)) = false)
    by (destruct Hp as [Hp | Hp]; rewrite Hp; assumption).
  pose proof (mark_3x3 (board s) row col (currentPlayer s) Hb) as Hb'.
  pose proof (mark_cells (board s) row col (currentPlayer s) Hcells
                (cell_value_player _ Hp)) as Hcells'.
  rewrite Hw in Htimers.
  unfold exec in *. rewrite clickCell_marks in * by assumption.
  cbv zeta in *. change (board (marked row col s))
    with (mark (board s) row col (currentPlayer s)) in *.
  rewrite isGameWon_value_completes in * by assumption.
  destruct (completes_line _ _ row col) eqn:Hc.
  - (* won *)
    simpl in Hinv'. constructor; simpl.
    + exact Hinv'.
    + exact Hcells'.
    + rewrite Htimers. reflexivity.
    + discriminate.
    + intros _. left. split; [apply last_snoc |]. split.
      * apply isGameWon_value_line with (row := row) (col := col); try assumption.
        apply completes_isGameWon_value; assumption.
      * rewrite (has_line_mark_other (board s) _ _ row col blank Hb Hrow Hcol Hcell);
          [exact Hother | |];
          destruct Hp as [Hp | Hp]; rewrite Hp; reflexivity.
    + rewrite !wins_announced_snoc. simpl.
      destruct Hscore as [Hsx Hso].
      destruct Hp as [Hp | Hp]; rewrite Hp; simpl.
      * rewrite lookup_insert_eq, lookup_insert_ne by discriminate.
        rewrite Hsx, Hso. simpl. split; repeat f_equal; lia.
      * rewrite lookup_insert_eq, lookup_insert_ne by discriminate.
        rewrite Hsx, Hso. simpl. split; repeat f_equal; lia.
  - destruct (lines_after_mark (board s) row col (currentPlayer s)
                Hb Hrow Hcol Hp Hcell Hx Ho Hc) as [Hx' Ho'].
    destruct (no_empty (mark (board s) row col (currentPlayer s))) eqn:He.
    + (* drawn *)
      simpl in Hinv'. constructor; simpl.
      * exact Hinv'.
      * exact Hcells'.
      * rewrite Htimers. reflexivity.
      * discriminate.
      * intros _. right. split; [apply last_snoc |].
        split; [exact He |]. split; assumption.
      * rewrite !wins_announced_snoc. simpl. rewrite !Nat.add_0_r. exact Hscore.
    + (* switched *)
      simpl in Hinv'. constructor; simpl.
      * exact Hinv'.
      * exact Hcells'.
      * rewrite Hw. exact Htimers.
      * intros _. exact He.
      * rewrite Hw. discriminate.
      * rewrite !wins_announced_snoc. simpl. rewrite !Nat.add_0_r. exact Hscore.
Qed.

Lemma session_invariant_clickCell s row col :
  session_invariant s -> session_invariant (exec (clickCell row col) s).
Proof.
  intros Hses.
  destruct (index (board s) row) as [r |] eqn:Hr.
  - destruct (strict_eq (cell (board s) row col) blank && negb (waiting s)) eqn:Hg.
    + apply guard_true in Hg as [Hcell Hw].
      apply session_invariant_marks; assumption.
    + unfold exec. rewrite (clickCell_skips s row col r Hr Hg). exact Hses.
  - unfold exec. rewrite clickCell_throws by exact Hr. exact Hses.
Qed.

Lemma session_invariant_step s e :
  session_invariant s -> session_invariant (step s e).
Proof.
  intros Hses. destruct e as [row col |]; simpl.
  - apply session_invariant_clickCell, Hses.
  - apply session_invariant_fire, Hses.
Qed.

Lemma session_invariant_run es s :
  session_invariant s -> session_invariant (run es s).
Proof.
  revert s. induction es as [| e es IH]; intros s Hses; [exact Hses |].
  apply (IH (step s e)), session_invariant_step, Hses.
Qed.

Lemma empty_cell_exists b :
  board_3x3 b -> no_empty b = false ->
  exists row col, 0 <= row <= 2 /\ 0 <= col <= 2 /\ cell b row col = Some blank.
Proof.
  intros Hb.
  destruct (board_3x3_cells b Hb)
    as (c00 & c01 & c02 & c10 & c11 & c12 & c20 & c21 & c22 & ->).
  cbv [no_empty forallb].
  destruct (String.eqb_spec c00 blank) as [-> | _];
    [intros _; exists 0, 0; repeat split; lia |].
  destruct (String.eqb_spec c01 blank) as [-> | _];
    [intros _; exists 0, 1; repeat split; lia |].
  destruct (String.eqb_spec c02 blank) as [-> | _];
    [intros _; exists 0, 2; repeat split; lia |].
  destruct (String.eqb_spec c10 blank) as [-> | _];
    [intros _; exists 1, 0; repeat split; lia |].
  destruct (String.eqb_spec c11 blank) as [-> | _];
    [intros _; exists 1, 1; repeat split; lia |].
  destruct (String.eqb_spec c12 blank) as [-> | _];
    [intros _; exists 1, 2; repeat split; lia |].
  destruct (String.eqb_spec c20 blank) as [-> | _];
    [intros _; exists 2, 0; repeat split; lia |].
  destruct (String.eqb_spec c21 blank) as [-> | _];
    [intros _; exists 2, 1; repeat split; lia |].
  destruct (String.eqb_spec c22 blank) as [-> | _];
    [intros _; exists 2, 2; repeat split; lia |].
  discriminate.
Qed.

(** X8. In every state of a session a reset is scheduled exactly while the
    model awaits it, and then exactly one, with the delay of 1500: [gameOver]
    never arms a second timer before the first has fired. *)
Theorem one_reset_pending_while_waiting (es : list event) :
  let s := run es initial in
  timers s = if waiting s then [1500] else [].
Proof.
  intros s. exact (ses_timers s (session_invariant_run es initial
                                   session_invariant_initial)).
Qed.

(** X9. In every state of a session, an active round has an empty cell
    inside the board: the model is never left active with a full board. *)
Theorem active_round_has_empty_cell (es : list event) :
  let s := run es initial in
  waiting s = false ->
  exists row col,
    0 <= row <= 2 /\ 0 <= col <= 2 /\ cell (board s) row col = Some blank.
Proof.
  intros s Hw.
  pose proof (session_invariant_run es initial session_invariant_initial) as Hses.
  apply empty_cell_exists.
  - exact (inv_board _ (ses_invariant _ Hses)).
  - exact (ses_open _ Hses Hw).
Qed.

Lemma active_round_has_empty_cell_witness :
  let s := run [Click 1 1; Click 0 0] initial in
  waiting s = false /\
  exists row col,
    0 <= row <= 2 /\ 0 <= col <= 2 /\ cell (board s) row col = Some blank.
Proof.
  intros s.
  assert (Hw : waiting s = false) by (vm_compute; reflexivity).
  split; [exact Hw |].
  exact (active_round_has_empty_cell [Click 1 1; Click 0 0] Hw).
Defined.

(** X10. In every state of a session, every cell of the board holds [''],
    ['x'] or ['o']. *)
Theorem cells_hold_blank_x_or_o (es : list event) (row col : Z) (v : string) :
  cell (board (run es initial)) row col = Some v ->
  v = blank \/ v = "x" \/ v = "o".
Proof.
  intros Hv.
  pose proof (ses_cells _ (session_invariant_run es initial
                             session_invariant_initial)) as Hcells.
  unfold cell in Hv.
  destruct (index (board (run es initial)) row) as [r |] eqn:Hr; [| discriminate].
  simpl in Hv. unfold index in Hr, Hv.
  case_decide; [| discriminate]. case_decide; [| discriminate].
  eapply Forall_lookup_1 in Hcells; [| exact Hr].
  eapply Forall_lookup_1 in Hcells; [| exact Hv].
  exact Hcells.
Qed.

Lemma cells_hold_blank_x_or_o_witness :
  cell (board (run [Click 1 1; Click 0 0] initial)) 0 0 = Some "o"
  /\ ("o" = blank \/ "o" = "x" \/ "o" = "o").
Proof.
  assert (Hv : cell (board (run [Click 1 1; Click 0 0] initial)) 0 0 = Some "o")
    by (vm_compute; reflexivity).
  split; [exact Hv |].
  exact (cells_hold_blank_x_or_o [Click 1 1; Click 0 0] 0 0 "o" Hv).
Defined.

(** X11. In every state of a session, the score of each player is the
    number of win messages the display was asked to show for that player:
    every win is counted once and nothing else changes the score. *)
Theorem score_counts_announced_wins (es : list event) :
  let s := run es initial in
  score s !! "x" = Some (Num (Z.of_nat (wins_announced "x" (display s))))
  /\ score s !! "o" = Some (Num (Z.of_nat (wins_announced "o" (display s)))).
Proof.
  intros s. exact (ses_score s (session_invariant_run es initial
                                  session_invariant_initial)).
Qed.

(** X12. In every state of a session in which the model awaits the reset,
    the last call on the display is the message of the finished round, and
    the message agrees with the board: either it names the current player,
    who has a line while the opponent has none, or it names nobody, the
    board is full and neither player has a line. *)
Theorem announced_outcome_matches_board (es : list event) :
  let s := run es initial in
  waiting s = true ->
  (last (display s) = Some (printMessage (Some (currentPlayer s))) /\
   has_line (board s) (currentPlayer s) = true /\
   has_line (board s) (opponent (currentPlayer s)) = false)
  \/ (last (display s) = Some (printMessage None) /\
      no_empty (board s) = true /\
      has_line (board s) "x" = false /\ has_line (board s) "o" = false).
Proof.
  intros s. exact (ses_outcome s (session_invariant_run es initial
                                    session_invariant_initial)).
Qed.

Lemma announced_outcome_matches_board_witness :
  let es := [Click 0 0; Click 1 1; Click 0 1; Click 2 2; Click 0 2] in
  let s := run es initial in
  waiting s = true /\
  ((last (display s) = Some (printMessage (Some (currentPlayer s))) /\
    has_line (board s) (currentPlayer s) = true /\
    has_line (board s) (opponent (currentPlayer s)) = false)
   \/ (last (display s) = Some (printMessage None) /\
       no_empty (board s) = true /\
       has_line (board s) "x" = false /\ has_line (board s) "o" = false)).
Proof.
  intros es s.
  assert (Hw : waiting s = true) by (vm_compute; reflexivity).
  split; [exact Hw |]. exact (announced_outcome_matches_board es Hw).
Defined.

Lemma score_le_refl s s' : score s' = score s -> score_le s s'.
Proof. intros H p n Hn. exists n. rewrite H. split; [exact Hn | lia]. Qed.

Lemma score_le_trans s1 s2 s3 : score_le s1 s2 -> score_le s2 s3 -> score_le s1 s3.
Proof.
  intros H12 H23 p n Hn.
  destruct (H12 p n Hn) as (n2 & Hn2 & Hle2).
  destruct (H23 p n2 Hn2) as (n3 & Hn3 & Hle3).
  exists n3. split; [exact Hn3 | lia].
Qed.

Lemma score_le_won s s1 :
  score s1 = score s -> currentPlayer s1 = currentPlayer s -> score_le s (won s1).
Proof.
  intros Hsc Hp p n Hn. unfold won, ended. simpl. rewrite Hsc, Hp.
  destruct (decide (p = currentPlayer s)) as [-> | Hne].
  - rewrite lookup_insert_eq, Hn. exists (n + 1). split; [reflexivity | lia].
  - rewrite lookup_insert_ne by congruence. exists n. split; [exact Hn | lia].
Qed.

Lemma fire_score s : score (fire s) = score s.
Proof.
  unfold fire, exec. destruct (timers s); [reflexivity |].
  rewrite resetCallback_run. reflexivity.
Qed.

Lemma score_le_step s e : board_3x3 (board s) -> score_le s (step s e).
Proof.
  intros Hb. destruct e as [row col |]; simpl.
  - unfold exec. destruct (index (board s) row) as [r |] eqn:Hr.
    + destruct (strict_eq (cell (board s) row col) blank && negb (waiting s)) eqn:Hg.
      * apply guard_true in Hg as [Hcell Hw].
        rewrite clickCell_marks;
          [| exact Hb | eapply index_row_inside; eassumption | exact Hcell | exact Hw].
        cbv zeta. simpl.
        destruct (isGameWon_value _ _ _ _);
          [apply score_le_won; reflexivity |].
        destruct (no_empty _); apply score_le_refl; reflexivity.
      * rewrite (clickCell_skips s row col r Hr Hg). apply score_le_refl. reflexivity.
    + rewrite clickCell_throws by exact Hr. apply score_le_refl. reflexivity.
  - apply score_le_refl, fire_score.
Qed.

(** X13. From any state with a 3x3 board, no sequence of clicks and reset
    firings lowers a score: a key of the score that holds a count holds a
    count at least as large afterwards.  The score is never reset. *)
Theorem score_never_decreases (es : list event) (s : TicTacToe) :
  board_3x3 (board s) -> score_le s (run es s).
Proof.
  revert s. induction es as [| e es IH]; intros s Hb.
  - apply score_le_refl. reflexivity.
  - apply (score_le_trans s (step s e)); [apply score_le_step, Hb |].
    apply (IH (step s e)).
    apply (step_with_3x3 clickCell clickCell_board), Hb.
Qed.

Lemma score_never_decreases_witness :
  board_3x3 (board x_to_win) /\
  score_le x_to_win (run [Click 0 2; Timeout; Click 1 1] x_to_win).
Proof.
  assert (Hb : board_3x3 (board x_to_win))
    by (vm_compute; split; [reflexivity | repeat constructor]).
  split; [exact Hb |].
  exact (score_never_decreases [Click 0 2; Timeout; Click 1 1] x_to_win Hb).
Defined.

(** X14. In a session, when a click on an empty cell ends the round (by a
    win or by a draw) and the reset then fires, the new round starts on an
    empty board, active, with no reset pending, the score as the click left
    it, and the turn with the player who made the last mark: the winner of a
    round opens the next one. *)
Theorem last_mover_opens_next_round (es : list event) (row col : Z) :
  let s := run es initial in
  let s1 := step s (Click row col) in
  let s2 := step s1 Timeout in
  waiting s = false -> cell (board s) row col = Some blank ->
  waiting s1 = true ->
  board s2 = createBoard /\ waiting s2 = false /\ timers s2 = [] /\
  score s2 = score s1 /\ currentPlayer s2 = currentPlayer s.
Proof.
  intros s s1 s2 Hw Hcell Hw1.
  pose proof (session_invariant_run es initial session_invariant_initial) as Hses.
  fold s in Hses.
  pose proof (session_invariant_step s (Click row col) Hses) as Hses1.
  fold s1 in Hses1.
  pose proof (ses_timers s1 Hses1) as Ht1. rewrite Hw1 in Ht1.
  assert (Hp1 : currentPlayer s1 = currentPlayer s).
  { pose proof (inv_board _ (ses_invariant _ Hses)) as Hb.
    destruct (cell_inside _ _ _ _ Hb Hcell) as [Hrow Hcol].
    unfold s1, step, step_with, exec in Hw1 |- *.
    rewrite clickCell_marks in Hw1 |- * by assumption.
    cbv zeta in Hw1 |- *. simpl in Hw1 |- *.
    destruct (isGameWon_value _ _ _ _); [reflexivity |].
    destruct (no_empty _); [reflexivity |].
    simpl in Hw1. congruence. }
  unfold s2, step, step_with, fire. rewrite Ht1.
  unfold exec. rewrite resetCallback_run. simpl.
  repeat split. exact Hp1.
Qed.

Lemma last_mover_opens_next_round_witness :
  let es := [Click 0 0; Click 1 1; Click 0 1; Click 2 2] in
  let s := run es initial in
  let s1 := step s (Click 0 2) in
  let s2 := step s1 Timeout in
  (waiting s = false /\ cell (board s) 0 2 = Some blank /\ waiting s1 = true)
  /\ board s2 = createBoard /\ waiting s2 = false /\ timers s2 = [] /\
  score s2 = score s1 /\ currentPlayer s2 = currentPlayer s.
Proof.
  intros es s s1 s2.
  assert (Hw : waiting s = false) by (vm_compute; reflexivity).
  assert (Hcell : cell (board s) 0 2 = Some blank) by (vm_compute; reflexivity).
  assert (Hw1 : waiting s1 = true) by (vm_compute; reflexivity).
  split; [exact (conj Hw (conj Hcell Hw1)) |].
  exact (last_mover_opens_next_round es 0 2 Hw Hcell Hw1).
Defined.

(** ** The display on the page *)

Lemma screen_shows_initial : screen_shows initial.
Proof.
  eexists. split; [vm_compute; reflexivity |].
  split; [vm_compute; reflexivity |]. split; [vm_compute; reflexivity |].
  split; [reflexivity | discriminate].
Qed.

Lemma screen_shows_fire s :
  session_invariant s -> screen_shows s -> screen_shows (fire s).
Proof.
  intros Hses (scr & Hrep & Hsc & Hrows & Hmsg0 & Hmsg1).
  pose proof (inv_board _ (ses_invariant _ Hses)) as Hb.
  pose proof (ses_timers _ Hses) as Htimers.
  unfold fire. destruct (timers s) as [| d rest] eqn:Ht.
  - exists scr. repeat split; assumption.
  - assert (Hw : waiting s = true) by (destruct (waiting s); [reflexivity | discriminate]).
    destruct (Hmsg1 Hw) as (w & _ & Hmsg).
    unfold exec. rewrite resetCallback_run.
    destruct scr as [sc rows msgs]. simpl in Hsc, Hrows, Hmsg. subst sc rows msgs.
    exists (mkScreen
              [("score-x", "Player 1: " ++ to_string (score s !! "x"));
               ("score-o", "Player 2: " ++ to_string (score s !! "o"))]
              (rows_of createBoard) []).
    simpl. split.
    + change (display s ++ [clearMessage; clearGameBoard])%list
        with (display s ++ [clearMessage] ++ [clearGameBoard])%list.
      rewrite app_assoc, !replay_snoc, Hrep. simpl.
      apply clearGameBoard_rows_of, Hb.
    + repeat split; try reflexivity. discriminate.
Qed.

Lemma screen_shows_marks s row col :
  session_invariant s -> screen_shows s ->
  waiting s = false -> cell (board s) row col = Some blank ->
  screen_shows (exec (clickCell row col) s).
Proof.
  intros Hses Hshow Hw Hcell.
  destruct (ses_invariant _ Hses) as [Hb Hp _ _ _].
  destruct (cell_inside _ _ _ _ Hb Hcell) as [Hrow Hcol].
  apply screen_shows_marked; assumption.
Qed.

Lemma screen_shows_step s e :
  session_invariant s -> screen_shows s -> screen_shows (step s e).
Proof.
  intros Hses Hshow. destruct e as [row col |]; simpl.
  - destruct (index (board s) row) as [r |] eqn:Hr.
    + destruct (strict_eq (cell (board s) row col) blank && negb (waiting s)) eqn:Hg.
      * apply guard_true in Hg as [Hcell Hw].
        apply screen_shows_marks; assumption.
      * unfold exec. rewrite (clickCell_skips s row col r Hr Hg). exact Hshow.
    + unfold exec. rewrite clickCell_throws by exact Hr. exact Hshow.
  - apply screen_shows_fire; assumption.
Qed.

Lemma screen_shows_run es s :
  session_invariant s -> screen_shows s -> screen_shows (run es s).
Proof.
  revert s. induction es as [| e es IH]; intros s Hses Hshow; [exact Hshow |].
  apply (IH (step s e)).
  - apply session_invariant_step, Hses.
  - apply screen_shows_step; assumption.
Qed.

(** X15. In every state of a session, the calls made on the display, run in
    order on the page, raise nothing ([updateBoard] always finds its cell,
    [updateScore] its score line, [clearMessage] a message), and the cells on
    the page show the board: the cell element of row [i] and column [j]
    carries the text of [board[i][j]]. *)
Theorem screen_mirrors_board (es : list event) :
  let s := run es initial in
  exists scr,
    replay (display s) page = Some scr /\ row_elements scr = rows_of (board s).
Proof.
  intros s.
  destruct (screen_shows_run es initial session_invariant_initial
              screen_shows_initial) as (scr & Hrep & _ & Hrows & _).
  exists scr. split; assumption.
Qed.

(** X16. In every state of a session, the page has exactly the two score
    lines, and they read [Player 1: n] and [Player 2: m] for the scores [n]
    of x and [m] of o held by the model. *)
Theorem screen_shows_scores (es : list event) :
  let s := run es initial in
  exists scr n m,
    replay (display s) page = Some scr /\
    score s !! "x" = Some (Num n) /\ score s !! "o" = Some (Num m) /\
    score_elements scr =
      [("score-x", "Player 1: " ++ pretty n);
       ("score-o", "Player 2: " ++ pretty m)].
Proof.
  intros s.
  destruct (screen_shows_run es initial session_invariant_initial
              screen_shows_initial) as (scr & Hrep & Hsc & _).
  destruct (ses_score _ (session_invariant_run es initial
                           session_invariant_initial)) as [Hx Ho].
  fold s in Hsc, Hx, Ho.
  exists scr. eexists. eexists. split; [exact Hrep |].
  split; [exact Hx |]. split; [exact Ho |].
  rewrite Hsc. change (score s !! "x") with (score s !! players.x).
  change (score s !! "o") with (score s !! players.o).
  rewrite Hx, Ho. reflexivity.
Qed.

(** X17. In every state of a session, the page shows no message while the
    round is active and exactly one while the model awaits the reset; that
    message reads [Player 1 wins!] when x has a line on the board,
    [Player 2 wins!] when o has one, and [Nobody wins!] when neither has. *)
Theorem screen_shows_outcome (es : list event) :
  let s := run es initial in
  exists scr,
    replay (display s) page = Some scr /\
    message_elements scr =
      if waiting s then
        [if has_line (board s) "x" then "Player 1 wins!"
         else if has_line (board s) "o" then "Player 2 wins!"
         else "Nobody wins!"]
      else [].
Proof.
  intros s.
  pose proof (session_invariant_run es initial session_invariant_initial) as Hses.
  destruct (screen_shows_run es initial session_invariant_initial
              screen_shows_initial) as (scr & Hrep & _ & _ & Hmsg0 & Hmsg1).
  fold s in Hses, Hmsg0, Hmsg1.
  exists scr. split; [exact Hrep |].
  destruct (waiting s) eqn:Hw; [| apply Hmsg0; reflexivity].
  destruct (Hmsg1 eq_refl) as (w & Hlast & ->).
  destruct (inv_player _ (ses_invariant _ Hses)) as [Hp | Hp];
    destruct (ses_outcome _ Hses Hw) as [(Hl & Hown & Hopp) | (Hl & _ & Hx & Ho)];
    rewrite Hl in Hlast; injection Hlast as <-;
    rewrite ?Hp in *; rewrite ?opponent_x, ?opponent_o in *.
  - change (has_line (board s) "x") with (has_line (board s) players.x).
    rewrite Hown. reflexivity.
  - change (has_line (board s) "x") with (has_line (board s) players.x).
    change (has_line (board s) "o") with (has_line (board s) players.o).
    rewrite Hx, Ho. reflexivity.
  - change (has_line (board s) "x") with (has_line (board s) players.x).
    change (has_line (board s) "o") with (has_line (board s) players.o).
    rewrite Hopp, Hown. reflexivity.
  - change (has_line (board s) "x") with (has_line (board s) players.x).
    change (has_line (board s) "o") with (has_line (board s) players.o).
    rewrite Hx, Ho. reflexivity.
Qed.

Lemma forwarded_inside b scr t row col :
  board_3x3 b -> row_elements scr = rows_of b ->
  forwarded scr t = Some (row, col) -> 0 <= row <= 2 /\ 0 <= col <= 2.
Proof.
  intros Hb Hrows.
  destruct (board_3x3_cells b Hb) as (? & ? & ? & ? & ? & ? & ? & ? & ? & ->).
  destruct t as [k l |]; [| discriminate]. simpl. rewrite Hrows.
  destruct k as [| [| [| k]]]; [| | | discriminate];
    (destruct l as [| [| [| l]]]; [| | | discriminate]);
    intros [= <- <-]; lia.
Qed.

Lemma dom_results_return des s :
  session_invariant s -> screen_shows s ->
  Forall (fun r => r = Return tt) (dom_results des s).
Proof.
  revert s. induction des as [| e des IH]; intros s Hses Hshow; [constructor |].
  simpl. destruct e as [t |]; simpl.
  - pose proof Hshow as (scr & Hrep & _ & Hrows & _). rewrite Hrep. simpl.
    destruct (forwarded scr t) as [[row col] |] eqn:Hf.
    + pose proof (inv_board _ (ses_invariant _ Hses)) as Hb.
      destruct (forwarded_inside _ _ _ _ _ Hb Hrows Hf) as [Hrow Hcol].
      constructor; [apply clickCell_returns; assumption |].
      apply IH.
      * apply (session_invariant_step s (Click row col) Hses).
      * apply (screen_shows_step s (Click row col) Hses Hshow).
    + constructor; [reflexivity |]. apply IH; assumption.
  - constructor; [reflexivity |].
    apply IH.
    + apply session_invariant_fire, Hses.
    + apply screen_shows_fire; assumption.
Qed.

(** X18. Driven through the display, the model never raises: along any
    sequence of clicks anywhere on the page and firings of the timer, every
    handler returns, because the listener of [bindHandler] forwards only
    clicks on cell elements, with the coordinates those cells carry. *)
Theorem display_driven_session_never_raises (des : list dom_event) :
  Forall (fun r => r = Return tt) (dom_results des initial).
Proof.
  apply dom_results_return;
    [exact session_invariant_initial | exact screen_shows_initial].
Qed.

(** Every state of a session meets the conditions under which the outcome of
    a click or of the reset is stated: the board is 3x3, the player to move
    is x or o, and the page shows the state. *)
Lemma session_state_is_shown (es : list event) :
  let s := run es initial in
  board_3x3 (board s)
  /\ (currentPlayer s = players.x \/ currentPlayer s = players.o)
  /\ screen_shows s.
Proof.
  intros s.
  pose proof (invariant_run es initial invariant_initial) as Hinv.
  split; [exact (inv_board _ Hinv) |]. split; [exact (inv_player _ Hinv) |].
  exact (screen_shows_run es initial session_invariant_initial
           screen_shows_initial).
Qed.
